(** * Tether: the archetype scoring engine of [app.py]

    A shallow embedding of [analyze_archetype] and
    [get_archetype_percentages] (section 1, CORE LOGIC, of [app.py]) and the
    properties of the scoring engine proved about it.

    Conventions of the embedding.
    - A Python [str] is a [string]; its characters are read as the code
      points U+0000 to U+00FF.  [lower] and [is_word] are the restrictions of
      [str.lower] and of the regular-expression class [\w] to that range.
    - A Python [int] is a [Z].
    - A Python [float] is a binary64 number, kept as a pair mantissa/exponent
      ([B64.t]); every operation is the exact rational operation followed by
      rounding to the nearest binary64 number, ties to even.  The program
      only produces finite non-negative floats.
    - An exception is a value of [PyExc] in the [Raise] branch of [Result]. *)

From Stdlib Require Import ZArith Lia Bool List Ascii String.
From Stdlib Require Import Sorting.Permutation Sorting.Sorted.
Import ListNotations.

Local Open Scope string_scope.
Local Open Scope Z_scope.

(** ** Characters and strings *)

Definition code (c : ascii) : nat := nat_of_ascii c.

Definition between (lo hi n : nat) : bool := (Nat.leb lo n && Nat.leb n hi)%bool.

(** [str.lower] on one code point below 256: the ASCII capitals and the
    Latin-1 capitals U+00C0..U+00DE (the multiplication sign U+00D7 apart)
    move up by 32; everything else is left alone. *)
Definition lower_char (c : ascii) : ascii :=
  let n := code c in
  if (between 65 90 n || (between 192 222 n && negb (Nat.eqb n 215)))%bool
  then ascii_of_nat (n + 32)
  else c.

Fixpoint lower (s : string) : string :=
  match s with
  | EmptyString => EmptyString
  | String c s' => String (lower_char c) (lower s')
  end.

(** The alphanumeric code points below 256 ([str.isalnum]): digits, ASCII
    letters, and the Latin-1 letters and numerics. *)
Definition is_alnum (c : ascii) : bool :=
  let n := code c in
  (between 48 57 n || between 65 90 n || between 97 122 n
   || Nat.eqb n 170 || between 178 179 n || Nat.eqb n 181
   || between 185 186 n || between 188 190 n
   || between 192 214 n || between 216 246 n || between 248 255 n)%bool.

(** The class [\w] of [re] on [str] patterns: alphanumeric or underscore. *)
Definition is_word (c : ascii) : bool :=
  (is_alnum c || Nat.eqb (code c) 95)%bool.

(** [s.startswith(k)]. *)
Fixpoint is_prefix (k s : string) : bool :=
  match k, s with
  | EmptyString, _ => true
  | String _ _, EmptyString => false
  | String a k', String b s' => (Ascii.eqb a b && is_prefix k' s')%bool
  end.

(** [k in s] for two strings: [k] occurs in [s] as a contiguous substring,
    that is, [s] from some position on starts with [k]. *)
Fixpoint contains (k s : string) : bool :=
  match s with
  | EmptyString => is_prefix k EmptyString
  | String _ s' => (is_prefix k s || contains k s')%bool
  end.

(** [w in L] for a string and a list of strings. *)
Definition mem (w : string) (L : list string) : bool :=
  existsb (String.eqb w) L.

(** ** Tokenisation

    [runs p s] lists the maximal non-empty runs of characters of [s] that
    satisfy [p], from left to right. *)
Definition cons_head (c : ascii) (l : list string) : list string :=
  match l with
  | t :: ts => String c t :: ts
  | [] => [String c EmptyString]
  end.

Fixpoint runs (p : ascii -> bool) (s : string) : list string :=
  match s with
  | EmptyString => []
  | String c s' =>
      if p c then
        match s' with
        | String c' _ =>
            if p c' then cons_head c (runs p s')
            else String c EmptyString :: runs p s'
        | EmptyString => [String c EmptyString]
        end
      else runs p s'
  end.

(** [re.findall(r'\b\w+\b', s)].  A match starts where a word character
    follows a non-word character or the start of [s]; [\w+] is greedy and
    takes the whole run, after which [\b] holds; no shorter match ends at a
    boundary, since inside a run both neighbours are word characters; the
    scan resumes after the match.  The result is the list of maximal runs of
    word characters. *)
Definition findall_words (s : string) : list string := runs is_word s.

(** ** binary64 arithmetic *)

Module B64.

(** The number [mant * 2 ^ expo]. *)
Record t : Set := mk { mant : Z; expo : Z }.

(** The fraction [(n / d) / 2 ^ e] as a pair numerator, denominator. *)
Definition scaled (n d e : Z) : Z * Z :=
  if 0 <=? e then (n, d * 2 ^ e) else (n * 2 ^ (- e), d).

(** The integer nearest to [n / d] for [0 < d], ties to even. *)
Definition rne (n d : Z) : Z :=
  let q := n / d in
  match 2 * (n mod d) ?= d with
  | Lt => q
  | Gt => q + 1
  | Eq => if Z.even q then q else q + 1
  end.

(** [floor (log2 (n / d))] for positive [n] and [d]. *)
Definition ilog2 (n d : Z) : Z :=
  let k := Z.log2 n - Z.log2 d in
  let '(a, b) := scaled n d k in
  if b <=? a then k else k - 1.

(** The binary64 number nearest to [n / d] for [0 < d], ties to even: 53
    bits of mantissa, the exponent of the last place no lower than -1074
    (gradual underflow); zero gets the mantissa 0.  There is no overflow
    case: a [str] has fewer than 2 ^ 63 characters, so the scores, quotients
    and products of this program lie far below 2 ^ 1024. *)
Definition rn (n d : Z) : t :=
  let e := Z.max (ilog2 (Z.abs n) d - 52) (- 1074) in
  let '(a, b) := scaled n d e in
  mk (rne a b) e.

(** [float(z)]. *)
Definition of_int (z : Z) : t := rn z 1.

(** [a / b] on two ints: the correctly rounded quotient, or
    [ZeroDivisionError]. *)
Definition true_div (a b : Z) : option t :=
  if b =? 0 then None
  else if b <? 0 then Some (rn (- a) (- b))
  else Some (rn a b).

(** [x * y] on two floats. *)
Definition mul (x y : t) : t :=
  let m := mant x * mant y in
  let e := expo x + expo y in
  if 0 <=? e then rn (m * 2 ^ e) 1 else rn m (2 ^ (- e)).

(** [round(x)] with one argument: the nearest int, ties to even. *)
Definition round (x : t) : Z :=
  if 0 <=? expo x then mant x * 2 ^ expo x
  else rne (mant x) (2 ^ (- expo x)).

(** [int(x)]: truncation towards zero. *)
Definition to_int (x : t) : Z :=
  if 0 <=? expo x then mant x * 2 ^ expo x
  else Z.quot (mant x) (2 ^ (- expo x)).

(** The literals [1.5] and [0.2] as binary64 numbers:
    [1.5 = 3 * 2^-1] and [0.2] is rounded to [3602879701896397 * 2^-54]. *)
Definition lit_1_5 : t := mk 3 (- 1).
Definition lit_0_2 : t := mk 3602879701896397 (- 54).

End B64.

(** ** Section 1 of [app.py]: CORE LOGIC *)

Definition BRIDGE_VERBS : list string :=
  [ "negotiate"; "close"; "prospect"; "canvass"; "pitch"; "lobby"; "advocate";
    "rally"; "galvanize"; "broker"; "influence"; "charm"; "convert"; "recruit";
    "source"; "interview"; "hire"; "onboard"; "persuade"; "sell"; "upsell";
    "win"; "secure"; "capture"; "retain"; "deal"; "network";
    "align"; "unify"; "integrate"; "merge"; "mentor"; "coach"; "empower";
    "facilitate"; "mediate"; "liaise"; "collaborate"; "partner"; "guide";
    "teach"; "train"; "present"; "speak"; "communicate"; "translate";
    "bridge"; "connect"; "represent"; "champion"; "evangelize"; "foster";
    "cultivate"; "nurture"; "relationship"; "stakeholder" ].

Definition BUILDER_VERBS : list string :=
  [ "build"; "architect"; "engineer"; "develop"; "code"; "program"; "design";
    "create"; "construct"; "forge"; "implement"; "deploy"; "launch"; "ship";
    "prototype"; "draft"; "compose"; "write"; "author"; "fabricate"; "assemble";
    "invent"; "innovate"; "pioneer"; "found"; "establish"; "generate"; "produce";
    "craft"; "devise"; "formulate"; "conceptualize"; "model" ].

Definition OPERATOR_VERBS : list string :=
  [ "manage"; "operate"; "run"; "maintain"; "support"; "administer"; "optimize";
    "streamline"; "scale"; "execute"; "process"; "handle"; "oversee"; "supervise";
    "direct"; "coordinate"; "monitor"; "track"; "report"; "analyze"; "audit";
    "ensure"; "enforce"; "comply"; "regulate"; "budget"; "forecast"; "schedule";
    "logistics"; "inventory"; "efficiency"; "workflow"; "systematize"; "organize" ].

Definition SALES_KEYWORDS : list string :=
  [ "sales"; "account"; "business development"; "biz dev"; "recruiter";
    "talent acquisition"; "pr"; "public relations"; "brand"; "marketing";
    "client"; "customer success" ].

Definition EXECUTIVE_KEYWORDS : list string :=
  [ "chief"; "president"; "vp"; "vice president"; "head of"; "director";
    "founder"; "c-suite"; "principal" ].

(** The dict returned by [analyze_archetype]. *)
Record ScoreSet : Set :=
  { Builder : Z; Operator : Z; Bridge : Z; Total : Z }.

(** [sum(10 for w in words if w in L)]. *)
Definition sum10 (L words : list string) : Z :=
  fold_left Z.add (map (fun _ => 10) (filter (fun w => mem w L) words)) 0.

(** [any(k in text_lower for k in K)]. *)
Definition any_in (K : list string) (text_lower : string) : bool :=
  existsb (fun k => contains k text_lower) K.

(** The three scores as the body of [analyze_archetype] carries them. *)
Record Scores : Set :=
  { builder_score : Z; operator_score : Z; bridge_score : Z }.

(** Lines 73 to 78: the base scores. *)
Definition base_scores (text : string) : Scores :=
  let text_lower := lower text in
  let words := findall_words text_lower in
  {| builder_score := sum10 BUILDER_VERBS words;
     operator_score := sum10 OPERATOR_VERBS words;
     bridge_score := sum10 BRIDGE_VERBS words |}.

Definition is_commercial (text : string) : bool :=
  any_in SALES_KEYWORDS (lower text).

Definition is_executive (text : string) : bool :=
  any_in EXECUTIVE_KEYWORDS (lower text).

(** Lines 83 and 84: [bridge_score = int(bridge_score * 1.5)]. *)
Definition commercial_boost (commercial : bool) (s : Scores) : Scores :=
  if commercial then
    {| builder_score := builder_score s;
       operator_score := operator_score s;
       bridge_score :=
         B64.to_int (B64.mul (B64.of_int (bridge_score s)) B64.lit_1_5) |}
  else s.

(** Lines 86 to 89: [shift = int(operator_score * 0.2)], taken from the
    operator score and added to the bridge score. *)
Definition executive_shift (executive : bool) (s : Scores) : Scores :=
  if executive then
    let shift :=
      B64.to_int (B64.mul (B64.of_int (operator_score s)) B64.lit_0_2) in
    {| builder_score := builder_score s;
       operator_score := operator_score s - shift;
       bridge_score := bridge_score s + shift |}
  else s.

(** Lines 91 to 100: the total and the all-zero case. *)
Definition finish (s : Scores) : ScoreSet :=
  let total := builder_score s + operator_score s + bridge_score s in
  if total =? 0 then
    {| Builder := 0; Operator := 0; Bridge := 0; Total := 1 |}
  else
    {| Builder := builder_score s; Operator := operator_score s;
       Bridge := bridge_score s; Total := total |}.

(** The scores after the commercial boost, and after both adjustments. *)
Definition after_boost (text : string) : Scores :=
  commercial_boost (is_commercial text) (base_scores text).

Definition after_shift (text : string) : Scores :=
  executive_shift (is_executive text) (after_boost text).

Definition analyze_archetype (text : string) : ScoreSet :=
  finish (after_shift text).

(** Exceptions of the resolver. *)
Inductive PyExc : Set := ZeroDivisionError | IndexError.

Inductive Result (A : Type) : Type :=
| Ok (a : A)
| Raise (e : PyExc).
Arguments Ok {A} a.
Arguments Raise {A} e.

(** [round((score / total) * 100)]. *)
Definition percentage (score total : Z) : Result Z :=
  match B64.true_div score total with
  | None => Raise ZeroDivisionError
  | Some q => Ok (B64.round (B64.mul q (B64.of_int 100)))
  end.

(** [sorted(items, key=lambda x: x[1], reverse=True)]: a stable sort by
    decreasing second component.  An item goes in front of the first later
    item whose key is not larger. *)
Fixpoint insert_desc (x : string * Z) (l : list (string * Z)) : list (string * Z) :=
  match l with
  | [] => [x]
  | y :: l' => if snd y <=? snd x then x :: l else y :: insert_desc x l'
  end.

Fixpoint sorted_desc (l : list (string * Z)) : list (string * Z) :=
  match l with
  | [] => []
  | x :: l' => insert_desc x (sorted_desc l')
  end.

(** The triple returned by [get_archetype_percentages]. *)
Record Resolved : Set :=
  { pcts : list (string * Z);
    sorted_pcts : list (string * Z);
    is_hybrid : bool }.

Definition get_archetype_percentages (scores : ScoreSet) : Result Resolved :=
  let total := Total scores in
  match percentage (Builder scores) total with
  | Raise e => Raise e
  | Ok pb =>
  match percentage (Operator scores) total with
  | Raise e => Raise e
  | Ok po =>
  match percentage (Bridge scores) total with
  | Raise e => Raise e
  | Ok pr =>
      let pcts := [("Builder", pb); ("Operator", po); ("Bridge", pr)] in
      let sorted_pcts := sorted_desc pcts in
      match sorted_pcts with
      | primary :: secondary :: _ =>
          let gap := snd primary - snd secondary in
          let is_hybrid := gap <? 20 in
          Ok {| pcts := pcts; sorted_pcts := sorted_pcts; is_hybrid := is_hybrid |}
      | _ => Raise IndexError
      end
  end end end.

(** ** Notions used in the statements *)

(** [k] occurs in [s] as a raw substring. *)
Definition Substring (k s : string) : Prop :=
  exists a b, s = a ++ k ++ b.

(** Some phrase of [K] occurs in the lower-cased text as a raw substring. *)
Definition occurs (K : list string) (text : string) : Prop :=
  exists k, In k K /\ Substring k (lower text).

(** The first, respectively the last, character of [s] satisfies [p]
    ([false] on the empty string). *)
Definition starts_with (p : ascii -> bool) (s : string) : bool :=
  match s with
  | EmptyString => false
  | String c _ => p c
  end.

Fixpoint ends_with (p : ascii -> bool) (s : string) : bool :=
  match s with
  | EmptyString => false
  | String c EmptyString => p c
  | String _ s' => ends_with p s'
  end.

Fixpoint all_chars (p : ascii -> bool) (s : string) : bool :=
  match s with
  | EmptyString => true
  | String c s' => (p c && all_chars p s')%bool
  end.

(** [w] stands in [a ++ w ++ b] as a whole word: it is a non-empty run of
    word characters, [a] does not end and [b] does not start with a word
    character. *)
Definition whole_word (a w b : string) : Prop :=
  w <> EmptyString /\ all_chars is_word w = true
  /\ ends_with is_word a = false /\ starts_with is_word b = false.

(** The number of tokens of the lower-cased text that are in [L]. *)
Definition hits (L : list string) (text : string) : nat :=
  List.length (filter (fun w => mem w L) (findall_words (lower text))).

(** The tokens in the words of the specification: the runs of alphanumeric
    characters of the lower-cased text. *)
Definition alnum_runs (text : string) : list string :=
  runs is_alnum (lower text).

(** The percentage in the words of the specification: the exact quotient
    [score / total * 100] rounded to the nearest integer, halves to even. *)
Definition half_even_percentage (score total : Z) : Z :=
  B64.rne (score * 100) total.

(** [floor (x * n / d)]: [floor_times b 15 10] is [floor (b * 1.5)] and
    [floor_times o 2 10] is [floor (o * 0.2)]. *)
Definition floor_times (x n d : Z) : Z := (x * n) / d.

(** [Tokenised p s ts]: [ts] cuts [s] into its maximal runs of characters
    satisfying [p].  The text is a separator (characters outside [p]), then,
    for each token, the token (a non-empty run of characters in [p]) and what
    follows it, which does not start with a character in [p]. *)
Inductive Tokenised (p : ascii -> bool) : string -> list string -> Prop :=
| Tokenised_nil (sep : string) :
    all_chars (fun c => negb (p c)) sep = true ->
    Tokenised p sep []
| Tokenised_cons (sep w rest : string) (ts : list string) :
    all_chars (fun c => negb (p c)) sep = true ->
    w <> EmptyString -> all_chars p w = true ->
    starts_with p rest = false ->
    Tokenised p rest ts ->
    Tokenised p (sep ++ w ++ rest) (w :: ts).

(** The gap between the two leading percentages of a result, as line 113
    computes it (and line 203 again for the log). *)
Definition gap (r : Resolved) : Z :=
  match sorted_pcts r with
  | primary :: secondary :: _ => snd primary - snd secondary
  | _ => 0
  end.

(** The text has fewer than [2 ^ 48] characters; its scores are then below
    [2 ^ 52] and all the float products of [analyze_archetype] are exact. *)
Definition short_text (text : string) : Prop :=
  Z.of_nat (String.length text) < 2 ^ 48.

(** [n] copies of [s]. *)
Fixpoint replicate (n : nat) (s : string) : string :=
  match n with
  | O => EmptyString
  | S n' => s ++ replicate n' s
  end.

(** A ranked list is in descending order of percentage. *)
Definition descending (l : list (string * Z)) : Prop :=
  StronglySorted (fun x y => snd y <= snd x) l.

(** The items of [l] with the percentage [v], in the order of [l]. *)
Definition with_percentage (v : Z) (l : list (string * Z)) : list (string * Z) :=
  filter (fun x => snd x =? v) l.

(** [p] is an integer nearest to the exact percentage [100 * score / total]
    (it is at most one half away), and it is the half-even rounding of the
    exact percentage whenever that is not half-way between two integers. *)
Definition nearest_percentage (score total p : Z) : Prop :=
  2 * Z.abs (total * p - 100 * score) <= total
  /\ (2 * ((score * 100) mod total) <> total ->
      p = half_even_percentage score total).

(** What [round((score / total) * 100)] returns, in exact arithmetic: the
    exact percentage rounded to the nearest integer, halves to even, but at
    the exact values 54.5 and 57.5, where the double lies above, resp. below,
    the exact value and [round] gives 55, resp. 57. *)
Definition rounded_percentage (score total : Z) : Z :=
  if 200 * score =? 109 * total then 55
  else if 200 * score =? 115 * total then 57
  else half_even_percentage score total.

(** The all-zero result of [analyze_archetype]. *)
Definition sentinel : ScoreSet :=
  {| Builder := 0; Operator := 0; Bridge := 0; Total := 1 |}.

(** ** Sections 2, 4 and 5 of [app.py]: the callers of the scoring engine

    The documents, the sheet and the page are outside the embedding: a
    document is taken as the list of the texts of its paragraphs or pages,
    the time stamp and the session identifier as two strings. *)

(** [sep.join(parts)]. *)
Fixpoint join (sep : string) (parts : list string) : string :=
  match parts with
  | [] => EmptyString
  | x :: rest =>
      match rest with
      | [] => x
      | _ :: _ => x ++ sep ++ join sep rest
      end
  end.

(** The line feed, ["\n"]. *)
Definition newline : string := String (ascii_of_nat 10) EmptyString.

(** Lines 129 to 132, on the texts of [doc.paragraphs]. *)
Definition extract_text_from_docx (paragraphs : list string) : string :=
  join newline paragraphs.

(** Lines 122 to 127, on the texts [page.get_text()] of the pages: the
    loop appends each page to [text]. *)
Definition extract_text_from_pdf (pages : list string) : string :=
  fold_left (fun text page => text ++ page) pages EmptyString.

(** [s[:n]]. *)
Fixpoint take (n : nat) (s : string) : string :=
  match n, s with
  | O, _ => EmptyString
  | S _, EmptyString => EmptyString
  | S n', String c s' => String c (take n' s')
  end.

Module Log.

(** The exceptions of the subscripts [sorted_pcts[i]] and [pcts[k]]. *)
Inductive Exc : Set := IndexError | KeyError.

(** [l[i]] on a list. *)
Definition item {A : Type} (l : list A) (i : nat) : Exc + A :=
  match nth_error l i with
  | Some x => inr x
  | None => inl IndexError
  end.

(** [d[k]] on a dict kept as the list of its items. *)
Fixpoint lookup (d : list (string * Z)) (k : string) : Exc + Z :=
  match d with
  | [] => inl KeyError
  | (k', v) :: d' => if String.eqb k k' then inr v else lookup d' k
  end.

(** The row of lines 211 to 223. *)
Record Row : Set :=
  { Timestamp : string;
    Session_ID : string;
    Archetype_Label : string;
    Archetype_Primary : string;
    Archetype_Secondary : string;
    Gap_Delta : Z;
    Score_Builder : Z;
    Score_Operator : Z;
    Score_Bridge : Z;
    Input_Redacted : string;
    Output_Report : string }.

(** Lines 206 to 209, and lines 261 to 264 for the page header:
    [f"{primary} + {secondary}"] for a hybrid, [primary] otherwise. *)
Definition label (primary secondary : string) (is_hybrid : bool) : string :=
  if is_hybrid then primary ++ " + " ++ secondary else primary.

(** Lines 201 to 223 of [log_to_gsheets]: the row that is appended to the
    sheet, or the exception that the function catches to return [False]. *)
Definition new_row (timestamp session_id text : string)
    (pcts sorted_pcts : list (string * Z)) (audit_result : string)
    (is_hybrid : bool) : Exc + Row :=
  match item sorted_pcts 0 with
  | inl e => inl e
  | inr p0 =>
  match item sorted_pcts 1 with
  | inl e => inl e
  | inr p1 =>
      let primary := fst p0 in
      let secondary := fst p1 in
      let delta := snd p0 - snd p1 in
      let label := label primary secondary is_hybrid in
      match lookup pcts "Builder" with
      | inl e => inl e
      | inr sb =>
      match lookup pcts "Operator" with
      | inl e => inl e
      | inr so =>
      match lookup pcts "Bridge" with
      | inl e => inl e
      | inr sr =>
          inr {| Timestamp := timestamp;
                 Session_ID := session_id;
                 Archetype_Label := label;
                 Archetype_Primary := primary;
                 Archetype_Secondary := secondary;
                 Gap_Delta := delta;
                 Score_Builder := sb;
                 Score_Operator := so;
                 Score_Bridge := sr;
                 Input_Redacted := take 500 text ++ "...";
                 Output_Report := audit_result |}
      end end end
  end end.

(** Lines 254 to 264: the header of the page. *)
Definition header (sorted_pcts : list (string * Z)) (is_hybrid : bool)
  : Exc + string :=
  match item sorted_pcts 0 with
  | inl e => inl e
  | inr p0 =>
  match item sorted_pcts 1 with
  | inl e => inl e
  | inr p1 => inr (label (fst p0) (fst p1) is_hybrid)
  end end.

End Log.

(** The phrases of a list are non-empty and hold no line feed. *)
Definition one_line_phrases (K : list string) : bool :=
  forallb (fun k => negb (String.eqb k EmptyString)
                    && all_chars (fun x => negb (Ascii.eqb x (ascii_of_nat 10))) k)%bool K.

(** [2 ^ e <= n / d], for [0 < d], as [ilog2] tests it. *)
Definition pow2_le_frac (e n d : Z) : Prop :=
  snd (B64.scaled n d e) <= fst (B64.scaled n d e).

(** The number [m * 2 ^ e] as a fraction: numerator and denominator. *)
Definition dy_num (m e : Z) : Z := if 0 <=? e then m * 2 ^ e else m.
Definition dy_den (e : Z) : Z := if 0 <=? e then 1 else 2 ^ (- e).

(** [x <= y] for two binary64 numbers. *)
Definition le_val (x y : B64.t) : Prop :=
  dy_num (B64.mant x) (B64.expo x) * dy_den (B64.expo y)
  <= dy_num (B64.mant y) (B64.expo y) * dy_den (B64.expo x).

(** The sum of a list of numbers. *)
Definition total_of (l : list Z) : Z := fold_right Z.add 0 l.

(** * Properties *)

(** ** Strings and tokens *)

Lemma append_assoc (a b c : string) : (a ++ b) ++ c = a ++ b ++ c.
Proof. induction a as [|x a IH]; simpl; [reflexivity|now rewrite IH]. Qed.

Lemma lower_app (a b : string) : lower (a ++ b) = lower a ++ lower b.
Proof. induction a as [|c a IH]; simpl; [reflexivity|now rewrite IH]. Qed.

Lemma lower_length (s : string) : String.length (lower s) = String.length s.
Proof. induction s as [|c s IH]; simpl; [reflexivity|now rewrite IH]. Qed.

Lemma is_word_lower (c : ascii) : is_word (lower_char c) = is_word c.
Proof.
  destruct c as [b0 b1 b2 b3 b4 b5 b6 b7].
  destruct b0, b1, b2, b3, b4, b5, b6, b7; reflexivity.
Qed.

Lemma starts_with_lower (s : string) :
  starts_with is_word (lower s) = starts_with is_word s.
Proof. destruct s; simpl; [reflexivity|apply is_word_lower]. Qed.

Lemma ends_with_lower (s : string) :
  ends_with is_word (lower s) = ends_with is_word s.
Proof.
  induction s as [|c s IH]; [reflexivity|].
  destruct s as [|c' s']; simpl in *; [apply is_word_lower|exact IH].
Qed.

Lemma all_chars_lower (s : string) :
  all_chars is_word (lower s) = all_chars is_word s.
Proof.
  induction s as [|c s IH]; simpl; [reflexivity|].
  now rewrite is_word_lower, IH.
Qed.

Lemma lower_nonempty (s : string) : s <> EmptyString -> lower s <> EmptyString.
Proof. destruct s; simpl; congruence. Qed.

Section Runs.
Variable p : ascii -> bool.

Lemma runs_starts (s : string) :
  starts_with p s = true -> exists t ts, runs p s = t :: ts.
Proof.
  destruct s as [|c s]; simpl; [discriminate|]. intros ->.
  destruct s as [|c' s']; [now eexists; eexists|].
  destruct (p c'); [|now eexists; eexists].
  destruct (runs p (String c' s')); simpl; now eexists; eexists.
Qed.

(** Tokenising a concatenation: the runs of the two parts, as soon as no
    run crosses the seam. *)
Lemma runs_app (a b : string) :
  ends_with p a = false \/ starts_with p b = false ->
  runs p (a ++ b) = (runs p a ++ runs p b)%list.
Proof.
  induction a as [|c a IH]; intros H; [reflexivity|].
  destruct a as [|c' a'].
  - simpl in *. destruct (p c) eqn:Ec; [|reflexivity].
    destruct H as [H|H]; [discriminate|].
    destruct b as [|c' b']; [reflexivity|].
    simpl in H. now rewrite H.
  - specialize (IH H).
    change (String c (String c' a') ++ b)
      with (String c (String c' a' ++ b)).
    change (String c' a' ++ b) with (String c' (a' ++ b)) in *.
    cbn [runs] in *. destruct (p c) eqn:Ec; [|exact IH].
    destruct (p c') eqn:Ec'.
    + rewrite IH.
      destruct (runs_starts (String c' a')) as (t & ts & E);
        [exact Ec'|].
      cbn [runs] in E. rewrite Ec' in E. rewrite E. reflexivity.
    + now rewrite IH.
Qed.

Lemma runs_cons_cons (c c' : ascii) (s : string) :
  p c = true -> p c' = true ->
  runs p (String c (String c' s)) = cons_head c (runs p (String c' s)).
Proof. intros H H'. simpl. now rewrite H, H'. Qed.

Lemma runs_all (w : string) :
  w <> EmptyString -> all_chars p w = true -> runs p w = [w].
Proof.
  induction w as [|c w IH]; [congruence|]. intros _ H.
  cbn [all_chars] in H. apply andb_prop in H as [Hc Hw].
  destruct w as [|c' w']; [simpl; now rewrite Hc|].
  pose proof Hw as Hw'. cbn [all_chars] in Hw'.
  apply andb_prop in Hw' as [Hc' _].
  rewrite runs_cons_cons, IH by (assumption || congruence).
  reflexivity.
Qed.

(** Where a run crosses the seam, the last token of the first part and the
    first token of the second part are one token of the concatenation. *)
Lemma runs_merge (a b : string) :
  ends_with p a = true -> starts_with p b = true ->
  exists ta x y tb,
    runs p a = (ta ++ [x])%list /\ runs p b = y :: tb
    /\ runs p (a ++ b) = (ta ++ (x ++ y)%string :: tb)%list.
Proof.
  intros Ha Hb. destruct (runs_starts b Hb) as (y & tb & Eb).
  induction a as [|c a IH]; [discriminate|].
  destruct a as [|c' a'].
  - cbn [ends_with] in Ha. exists [], (String c EmptyString), y, tb.
    split; [simpl; now rewrite Ha|]. split; [exact Eb|].
    destruct b as [|c' b']; [discriminate|]. cbn [starts_with] in Hb.
    change (String c EmptyString ++ String c' b') with (String c (String c' b')).
    rewrite runs_cons_cons, Eb by assumption. reflexivity.
  - destruct (IH Ha) as (ta & x & y' & tb' & Ea & Eb' & Eab).
    rewrite Eb in Eb'. injection Eb' as <- <-.
    change (String c (String c' a') ++ b)
      with (String c (String c' (a' ++ b))).
    change (String c' a' ++ b) with (String c' (a' ++ b)) in Eab.
    destruct (p c) eqn:Hc.
    + destruct (p c') eqn:Hc'.
      * rewrite !runs_cons_cons, Ea, Eab by assumption.
        destruct ta as [|t0 ta]; cbn [app cons_head].
        -- exists [], (String c x), y, tb. repeat split; [exact Eb].
        -- exists (String c t0 :: ta), x, y, tb. repeat split; [exact Eb].
      * exists (String c EmptyString :: ta), x, y, tb.
        split; [|split; [exact Eb|]].
        -- cbn [app]. rewrite <- Ea. simpl. now rewrite Hc, Hc'.
        -- cbn [app]. rewrite <- Eab. simpl. now rewrite Hc, Hc'.
    + exists ta, x, y, tb. split; [|split; [exact Eb|]].
      * rewrite <- Ea. simpl. now rewrite Hc.
      * rewrite <- Eab. simpl. now rewrite Hc.
Qed.

Lemma ends_with_app (a s : string) :
  s <> EmptyString -> ends_with p (a ++ s) = ends_with p s.
Proof.
  intros Hs. induction a as [|c a IH]; [reflexivity|].
  change (String c a ++ s) with (String c (a ++ s)).
  cbn [ends_with]. rewrite IH.
  destruct (a ++ s) eqn:E; [|reflexivity].
  destruct a; simpl in E; [contradiction|discriminate].
Qed.

Lemma runs_length (s : string) :
  (List.length (runs p s) <= String.length s)%nat.
Proof.
  induction s as [|c s IH]; simpl; [lia|].
  destruct (p c); [|lia].
  destruct s as [|c' s']; [simpl; lia|].
  destruct (p c'); [|simpl in *; lia].
  destruct (runs p (String c' s')); simpl in *; lia.
Qed.

End Runs.

(** The tokens of a text around a whole word. *)
Lemma findall_words_whole_word (a w b : string) :
  whole_word a w b ->
  findall_words (lower (a ++ w ++ b))
  = (findall_words (lower a) ++ lower w :: findall_words (lower b))%list
  /\ findall_words (lower (a ++ b))
     = (findall_words (lower a) ++ findall_words (lower b))%list.
Proof.
  intros (Hw & Hall & Ha & Hb). unfold findall_words.
  rewrite !lower_app. split.
  - rewrite runs_app by (left; now rewrite ends_with_lower).
    rewrite runs_app by (right; now rewrite starts_with_lower).
    rewrite (runs_all is_word (lower w));
      [reflexivity|now apply lower_nonempty|].
    now rewrite all_chars_lower.
  - apply runs_app. left. now rewrite ends_with_lower.
Qed.

(** [k in s] decides the substring relation. *)
Lemma is_prefix_iff (k s : string) :
  is_prefix k s = true <-> exists b, s = k ++ b.
Proof.
  revert s. induction k as [|c k IH]; intros s; simpl.
  - split; [now exists s|reflexivity].
  - destruct s as [|c' s']; [split; [discriminate|intros [b Hb]; discriminate]|].
    rewrite andb_true_iff, Ascii.eqb_eq, IH. split.
    + intros [-> [b ->]]. now exists b.
    + intros [b Hb]. injection Hb as -> ->. split; [reflexivity|now exists b].
Qed.

Lemma contains_iff (k s : string) : contains k s = true <-> Substring k s.
Proof.
  unfold Substring. induction s as [|c s IH]; cbn [contains].
  - rewrite is_prefix_iff. split.
    + intros [b Hb]. now exists EmptyString, b.
    + intros (a & b & H). destruct a; [now exists b|discriminate].
  - rewrite orb_true_iff, is_prefix_iff, IH. split.
    + intros [[b Hb]|(a & b & H)].
      * now exists EmptyString, b.
      * exists (String c a), b. simpl. now rewrite H.
    + intros (a & b & H). destruct a as [|c' a].
      * left. now exists b.
      * right. exists a, b. simpl in H. congruence.
Qed.

Lemma any_in_iff (K : list string) (text : string) :
  any_in K (lower text) = true <-> occurs K text.
Proof.
  unfold any_in, occurs. rewrite existsb_exists.
  split; intros (k & Hk & H); exists k; split; try assumption;
    now apply contains_iff.
Qed.

(** ** Base scores *)

Lemma sum10_count (L words : list string) :
  sum10 L words
  = 10 * Z.of_nat (List.length (filter (fun w => mem w L) words)).
Proof.
  unfold sum10.
  assert (G : forall (l : list string) (acc : Z),
             fold_left Z.add (map (fun _ : string => 10) l) acc
             = acc + 10 * Z.of_nat (List.length l)).
  { induction l as [|x l IH]; intros acc; cbn [map fold_left List.length].
    - lia.
    - rewrite IH. lia. }
  now rewrite G.
Qed.

Lemma sum10_app (L u v : list string) :
  sum10 L (u ++ v)%list = sum10 L u + sum10 L v.
Proof. rewrite !sum10_count, filter_app, length_app. lia. Qed.

Lemma sum10_nonneg (L words : list string) : 0 <= sum10 L words.
Proof. rewrite sum10_count. lia. Qed.

Lemma hits_le_length (L : list string) (text : string) :
  (hits L text <= String.length text)%nat.
Proof.
  unfold hits, findall_words.
  pose proof (filter_length_le (fun w => mem w L) (runs is_word (lower text))).
  pose proof (runs_length is_word (lower text)).
  rewrite lower_length in *. lia.
Qed.

Lemma base_scores_hits (text : string) :
  base_scores text
  = {| builder_score := 10 * Z.of_nat (hits BUILDER_VERBS text);
       operator_score := 10 * Z.of_nat (hits OPERATOR_VERBS text);
       bridge_score := 10 * Z.of_nat (hits BRIDGE_VERBS text) |}.
Proof. unfold base_scores, hits. now rewrite !sum10_count. Qed.

Lemma sum10_cons (L : list string) (w : string) (words : list string) :
  sum10 L (w :: words) = (if mem w L then 10 else 0) + sum10 L words.
Proof.
  rewrite !sum10_count. cbn [filter]. destruct (mem w L); cbn [List.length]; lia.
Qed.

Lemma mem_iff (w : string) (L : list string) : mem w L = true <-> In w L.
Proof.
  unfold mem. rewrite existsb_exists. split.
  - intros (x & Hx & E). apply String.eqb_eq in E. now subst.
  - intros H. exists w. split; [assumption|apply String.eqb_refl].
Qed.

Lemma mem_remove (k w : string) (L : list string) :
  w <> k -> mem w (remove string_dec k L) = mem w L.
Proof.
  intros Hne. induction L as [|x L IH]; [reflexivity|].
  cbn [remove]. destruct (string_dec k x) as [<-|Hx].
  - rewrite IH. unfold mem at 2. cbn [existsb].
    destruct (String.eqb_spec w k); [contradiction|reflexivity].
  - unfold mem in *. cbn [existsb]. now rewrite IH.
Qed.

(** The base scores of a text around a whole word: those of the text
    without the word, plus 10 in each list that holds the word. *)
Lemma base_scores_whole_word (a w b : string) :
  whole_word a w b ->
  let bonus L := if mem (lower w) L then 10 else 0 in
  base_scores (a ++ w ++ b)
  = {| builder_score :=
         builder_score (base_scores (a ++ b)) + bonus BUILDER_VERBS;
       operator_score :=
         operator_score (base_scores (a ++ b)) + bonus OPERATOR_VERBS;
       bridge_score :=
         bridge_score (base_scores (a ++ b)) + bonus BRIDGE_VERBS |}.
Proof.
  intros H bonus. subst bonus.
  destruct (findall_words_whole_word a w b H) as [E1 E2].
  unfold base_scores. rewrite E1, E2.
  cbn [builder_score operator_score bridge_score].
  rewrite !sum10_app, !sum10_cons. f_equal; lia.
Qed.

(** Every keyword of the three lexicons is one token: a non-empty run of
    word characters. *)
Lemma lexicon_keywords_are_words (k : string) :
  In k (BUILDER_VERBS ++ OPERATOR_VERBS ++ BRIDGE_VERBS)%list ->
  k <> EmptyString /\ all_chars is_word k = true.
Proof.
  intros H.
  assert (F : forallb (fun k => negb (String.eqb k EmptyString)
                                && all_chars is_word k)%bool
                (BUILDER_VERBS ++ OPERATOR_VERBS ++ BRIDGE_VERBS)%list = true)
    by (vm_compute; reflexivity).
  rewrite forallb_forall in F. specialize (F k H).
  apply andb_prop in F as [F1 F2]. split; [|assumption].
  intros ->. discriminate F1.
Qed.

(** ** The tokens are the maximal runs *)

Section TokenisedRuns.
Variable p : ascii -> bool.

Lemma runs_separator (sep : string) :
  all_chars (fun c => negb (p c)) sep = true -> runs p sep = [].
Proof.
  induction sep as [|c sep IH]; [reflexivity|].
  cbn [all_chars]. intros H. apply andb_prop in H as [Hc Hs].
  apply negb_true_iff in Hc. simpl. rewrite Hc. now apply IH.
Qed.

Lemma ends_with_separator (sep : string) :
  all_chars (fun c => negb (p c)) sep = true -> ends_with p sep = false.
Proof.
  induction sep as [|c sep IH]; [reflexivity|].
  cbn [all_chars]. intros H. apply andb_prop in H as [Hc Hs].
  apply negb_true_iff in Hc.
  destruct sep; [exact Hc|]. now apply IH.
Qed.

Lemma Tokenised_unique (s : string) (ts : list string) :
  Tokenised p s ts -> ts = runs p s.
Proof.
  induction 1 as [sep Hsep|sep w rest ts Hsep Hw Hall Hrest _ IH].
  - now rewrite runs_separator.
  - rewrite runs_app by (left; now apply ends_with_separator).
    rewrite runs_app by now right.
    rewrite runs_separator, runs_all by assumption.
    simpl. now rewrite IH.
Qed.

Lemma Tokenised_skip (c : ascii) (s : string) (ts : list string) :
  p c = false -> Tokenised p s ts -> Tokenised p (String c s) ts.
Proof.
  intros Hc H. destruct H as [sep Hsep|sep w rest ts Hsep Hw Hall Hrest H].
  - constructor. cbn [all_chars]. now rewrite Hc.
  - change (String c (sep ++ w ++ rest)) with (String c sep ++ w ++ rest).
    constructor; try assumption. cbn [all_chars]. now rewrite Hc.
Qed.

Lemma Tokenised_runs (s : string) : Tokenised p s (runs p s).
Proof.
  induction s as [|c s IH]; [now constructor|].
  destruct (p c) eqn:Hc.
  - destruct s as [|c' s'].
    + simpl. rewrite Hc.
      apply (Tokenised_cons p EmptyString (String c EmptyString)
               EmptyString []); try reflexivity; try congruence.
      * simpl. now rewrite Hc.
      * now constructor.
    + destruct (p c') eqn:Hc'.
      * rewrite runs_cons_cons by assumption.
        inversion IH as [sep Hsep E1 E2|sep w rest ts Hsep Hw Hall Hrest H E1 E2].
        { exfalso. subst sep. cbn [all_chars] in Hsep.
          rewrite Hc' in Hsep. discriminate. }
        destruct sep as [|c0 sep0].
        { apply (Tokenised_cons p EmptyString (String c w) rest ts);
            try assumption; try reflexivity; try congruence.
          cbn [all_chars]. now rewrite Hc. }
        { exfalso. simpl in E1. injection E1 as E0 _. subst c0.
          cbn [all_chars] in Hsep. rewrite Hc' in Hsep. discriminate. }
      * replace (runs p (String c (String c' s')))
          with (String c EmptyString :: runs p (String c' s'))
          by (simpl; now rewrite Hc, Hc').
        apply (Tokenised_cons p EmptyString (String c EmptyString)
                 (String c' s')); try reflexivity; try congruence;
          try assumption.
        simpl. now rewrite Hc.
  - replace (runs p (String c s)) with (runs p s)
      by (simpl; now rewrite Hc).
    now apply Tokenised_skip.
Qed.

End TokenisedRuns.

(** Separators around a seam: they carry no token and close the tokens next
    to them. *)
Lemma append_nil_r (a : string) : a ++ EmptyString = a.
Proof. induction a as [|x a IH]; simpl; [reflexivity|now rewrite IH]. Qed.

Lemma nonword_lower (sep : string) :
  all_chars (fun c => negb (is_word c)) sep = true ->
  all_chars (fun c => negb (is_word c)) (lower sep) = true.
Proof.
  induction sep as [|c sep IH]; [reflexivity|]. cbn [all_chars lower].
  rewrite is_word_lower. intros H. apply andb_prop in H as [-> H].
  now rewrite IH.
Qed.

Lemma starts_with_separator (p : ascii -> bool) (sep : string) :
  all_chars (fun c => negb (p c)) sep = true -> starts_with p sep = false.
Proof.
  destruct sep as [|c sep]; [reflexivity|]. cbn [all_chars starts_with].
  intros H. apply andb_prop in H as [H _]. now apply negb_true_iff.
Qed.

Lemma ends_with_closed (p : ascii -> bool) (a sep : string) :
  all_chars (fun c => negb (p c)) sep = true ->
  ends_with p a = false \/ sep <> EmptyString ->
  ends_with p (a ++ sep) = false.
Proof.
  intros Hsep H. destruct sep as [|c sep].
  - rewrite append_nil_r. destruct H; [assumption|contradiction].
  - rewrite ends_with_app by discriminate. now apply ends_with_separator.
Qed.

Lemma starts_with_closed (p : ascii -> bool) (sep b : string) :
  all_chars (fun c => negb (p c)) sep = true ->
  starts_with p b = false \/ sep <> EmptyString ->
  starts_with p (sep ++ b) = false.
Proof.
  intros Hsep H. destruct sep as [|c sep].
  - destruct H; [assumption|contradiction].
  - cbn [all_chars] in Hsep. apply andb_prop in Hsep as [Hc _].
    now apply negb_true_iff.
Qed.

Lemma runs_app_separator (p : ascii -> bool) (a sep : string) :
  all_chars (fun c => negb (p c)) sep = true ->
  runs p (a ++ sep) = runs p a /\ runs p (sep ++ a) = runs p a.
Proof.
  intros Hsep. split.
  - rewrite runs_app by (right; now apply starts_with_separator).
    rewrite (runs_separator p sep Hsep). apply app_nil_r.
  - rewrite runs_app by (left; now apply ends_with_separator).
    now rewrite (runs_separator p sep Hsep).
Qed.

(** Joining two texts merges at most two tokens into one, which adds at
    most one hit to a list. *)
Lemma sum10_runs_app (L : list string) (a b : string) :
  sum10 L (runs is_word (a ++ b))
  <= sum10 L (runs is_word a) + sum10 L (runs is_word b) + 10.
Proof.
  destruct (ends_with is_word a) eqn:Ha.
  - destruct (starts_with is_word b) eqn:Hb.
    + destruct (runs_merge is_word a b Ha Hb)
        as (ta & x & y & tb & -> & -> & ->).
      repeat (rewrite sum10_app || rewrite sum10_cons).
      pose proof (sum10_nonneg L []).
      destruct (mem x L), (mem y L), (mem (x ++ y) L); lia.
    + rewrite runs_app by now right. rewrite sum10_app. lia.
  - rewrite runs_app by now left. rewrite sum10_app. lia.
Qed.

(** The tokens of a text into which a word was inserted between
    separators. *)
Lemma findall_words_insert (a sep1 w sep2 b : string) :
  w <> EmptyString -> all_chars is_word w = true ->
  all_chars (fun c => negb (is_word c)) sep1 = true ->
  all_chars (fun c => negb (is_word c)) sep2 = true ->
  ends_with is_word a = false \/ sep1 <> EmptyString ->
  starts_with is_word b = false \/ sep2 <> EmptyString ->
  findall_words (lower (a ++ sep1 ++ w ++ sep2 ++ b))
  = (findall_words (lower a) ++ lower w :: findall_words (lower b))%list.
Proof.
  intros Hw Hall H1 H2 Ha Hb.
  assert (Hww : whole_word (a ++ sep1) w (sep2 ++ b)).
  { repeat split; try assumption.
    - now apply ends_with_closed.
    - now apply starts_with_closed. }
  rewrite <- (append_assoc a sep1).
  rewrite (proj1 (findall_words_whole_word _ _ _ Hww)).
  unfold findall_words. rewrite !lower_app.
  rewrite (proj1 (runs_app_separator is_word (lower a) (lower sep1)
                    (nonword_lower sep1 H1))).
  rewrite (proj2 (runs_app_separator is_word (lower b) (lower sep2)
                    (nonword_lower sep2 H2))).
  reflexivity.
Qed.

(** ** binary64 arithmetic *)

Module B64Facts.
Import B64.

Lemma rne_near (n d : Z) : 0 < d -> Z.abs (2 * (rne n d * d - n)) <= d.
Proof.
  intros Hd. unfold rne.
  pose proof (Z.div_mod n d ltac:(lia)) as E.
  pose proof (Z.mod_pos_bound n d Hd) as B.
  destruct (Z.compare_spec (2 * (n mod d)) d) as [C|C|C];
    [ destruct (Z.even (n / d)) | | ]; nia.
Qed.

Lemma rne_exact (k d : Z) : 0 < d -> rne (k * d) d = k.
Proof.
  intros Hd. unfold rne.
  rewrite Z.mod_mul, Z.div_mul by lia.
  destruct (Z.compare_spec (2 * 0) d); lia.
Qed.

Lemma rne_nonneg (n d : Z) : 0 <= n -> 0 < d -> 0 <= rne n d.
Proof.
  intros Hn Hd. unfold rne.
  pose proof (Z.div_pos n d Hn Hd).
  destruct (2 * (n mod d) ?= d); [destruct (Z.even (n / d))| |]; lia.
Qed.

Lemma pow2_pos (e : Z) : 0 <= e -> 0 < 2 ^ e.
Proof. intros. apply Z.pow_pos_nonneg; lia. Qed.

(** The exponent chosen by [ilog2] stays below every power of two that
    bounds the fraction. *)
Lemma ilog2_lt (n d U : Z) :
  0 <= n -> 0 < d -> 0 <= U -> n < d * 2 ^ U -> ilog2 n d < U.
Proof.
  intros Hn Hd HU Hlt. unfold ilog2.
  assert (Hk : Z.log2 n - Z.log2 d <= U).
  { destruct (Z.eq_dec n 0) as [->|Hn0].
    - change (Z.log2 0) with 0. pose proof (Z.log2_nonneg d). lia.
    - pose proof (Z.log2_spec n ltac:(lia)) as [Ln _].
      pose proof (Z.log2_spec d Hd) as [_ Ld].
      pose proof (Z.log2_nonneg n). pose proof (Z.log2_nonneg d).
      assert (2 ^ Z.log2 n < 2 ^ (Z.succ (Z.log2 d) + U)).
      { rewrite Z.pow_add_r by lia.
        pose proof (pow2_pos U HU). nia. }
      apply Z.pow_lt_mono_r_iff in H1; lia. }
  destruct (scaled n d (Z.log2 n - Z.log2 d)) as [a b] eqn:Es.
  destruct (Z.leb_spec b a) as [Hba|Hba]; [|lia].
  destruct (Z.eq_dec (Z.log2 n - Z.log2 d) U) as [Ek|]; [|lia].
  exfalso. rewrite Ek in Es. unfold scaled in Es.
  destruct (Z.leb_spec 0 U); [|lia]. inversion Es; subst. lia.
Qed.

(** Rounding a fraction below [2 ^ U], [U <= 53]: the last place has a
    non-positive exponent [- E], and the mantissa is the integer nearest
    to the fraction scaled by [2 ^ E]. *)
Lemma rn_small (n d U : Z) :
  0 <= n -> 0 < d -> 0 <= U <= 53 -> n < d * 2 ^ U ->
  exists E, 53 - U <= E <= 1074 /\ rn n d = mk (rne (n * 2 ^ E) d) (- E).
Proof.
  intros Hn Hd HU Hlt. unfold rn.
  rewrite Z.abs_eq by lia.
  pose proof (ilog2_lt n d U Hn Hd ltac:(lia) Hlt) as HL.
  set (e := Z.max (ilog2 n d - 52) (- 1074)).
  assert (He : - 1074 <= e <= U - 53) by lia.
  exists (- e). split; [lia|].
  unfold scaled. destruct (Z.leb_spec 0 e) as [H0|H0].
  - assert (e = 0) as -> by lia. simpl. now rewrite !Z.mul_1_r.
  - now rewrite Z.opp_involutive.
Qed.

Lemma of_int_exact (z : Z) :
  0 <= z < 2 ^ 53 ->
  exists E, 0 <= E <= 1074 /\ of_int z = mk (z * 2 ^ E) (- E).
Proof.
  intros Hz. unfold of_int.
  destruct (rn_small z 1 53) as (E & HE & ->); try lia.
  exists E. split; [lia|].
  now rewrite <- (Z.mul_1_r (z * 2 ^ E)) at 1; rewrite rne_exact by lia.
Qed.

(** Truncation of a non-negative float whose last place is [2 ^ - E]. *)
Lemma to_int_between (m E k : Z) :
  0 <= E -> 0 <= k -> k * 2 ^ E <= m < (k + 1) * 2 ^ E ->
  to_int (mk m (- E)) = k.
Proof.
  intros HE Hk Hm. unfold to_int. cbn [mant expo].
  pose proof (pow2_pos E HE) as HP.
  destruct (Z.leb_spec 0 (- E)).
  - assert (E = 0) as -> by lia. simpl in *. lia.
  - rewrite Z.opp_involutive, Z.quot_div_nonneg by nia.
    symmetry. apply Z.div_unique with (m - k * 2 ^ E); lia.
Qed.

(** [int(x * 1.5)] on an even int below [2 ^ 52] is exact. *)
Lemma to_int_mul_1_5 (c : Z) :
  0 <= c -> 2 * c < 2 ^ 52 ->
  to_int (mul (of_int (2 * c)) lit_1_5) = 3 * c.
Proof.
  intros Hc Hlt.
  destruct (of_int_exact (2 * c)) as (E & HE & ->); [lia|].
  unfold mul, lit_1_5. cbn [mant expo].
  pose proof (pow2_pos E ltac:(lia)) as HP.
  destruct (Z.leb_spec 0 (- E + - 1)); [lia|].
  replace (- (- E + - 1)) with (E + 1) by lia.
  assert (HD : 2 ^ (E + 1) = 2 * 2 ^ E) by (rewrite Z.pow_add_r; lia).
  destruct (rn_small (2 * c * 2 ^ E * 3) (2 ^ (E + 1)) 53)
    as (E' & HE' & ->); try nia.
  replace (2 * c * 2 ^ E * 3 * 2 ^ E') with (3 * c * 2 ^ E' * 2 ^ (E + 1))
    by (rewrite HD; ring).
  rewrite rne_exact by lia.
  apply to_int_between; lia.
Qed.

(** [int(x * 0.2)] on a multiple of 5 below [2 ^ 52] is the exact fifth:
    the excess of the literal over one fifth, [2 ^ -54] in relative terms,
    is rounded away. *)
Lemma to_int_mul_0_2 (k : Z) :
  0 <= k -> 5 * k < 2 ^ 52 ->
  to_int (mul (of_int (5 * k)) lit_0_2) = k.
Proof.
  intros Hk Hlt.
  destruct (of_int_exact (5 * k)) as (E & HE & ->); [lia|].
  unfold mul, lit_0_2. cbn [mant expo].
  pose proof (pow2_pos E ltac:(lia)) as HP.
  destruct (Z.leb_spec 0 (- E + - 54)); [lia|].
  replace (- (- E + - 54)) with (E + 54) by lia.
  assert (HD : 2 ^ (E + 54) = 2 ^ 54 * 2 ^ E) by (rewrite Z.pow_add_r; lia).
  destruct (rn_small (5 * k * 2 ^ E * 3602879701896397) (2 ^ (E + 54)) 53)
    as (E' & HE' & ->); try nia.
  pose proof (pow2_pos E' ltac:(lia)) as HP'.
  pose proof (rne_near (5 * k * 2 ^ E * 3602879701896397 * 2 ^ E')
                (2 ^ (E + 54)) ltac:(lia)) as Hn.
  set (m := rne _ _) in *.
  rewrite HD in Hn.
  replace (5 * k * 2 ^ E * 3602879701896397 * 2 ^ E')
    with (k * 2 ^ E' * (2 ^ 54 * 2 ^ E) + k * 2 ^ E' * 2 ^ E) in Hn by ring.
  set (A := 2 ^ E) in *. set (B := 2 ^ E') in *.
  apply to_int_between; try lia.
  assert (H54 : 2 ^ 54 = 18014398509481984) by reflexivity.
  assert (H52 : 2 ^ 52 = 4503599627370496) by reflexivity.
  rewrite H54 in Hn. rewrite H52 in Hlt.
  assert (HkB : 0 <= k * B) by nia.
  split.
  - assert (2 * (k * B - m) * (18014398509481984 * A)
            <= 18014398509481984 * A) by nia.
    assert (k * B - m < 1) by nia. lia.
  - assert (2 * (m - k * B) * (18014398509481984 * A)
            <= 18014398509481984 * A + 2 * (k * B) * A) by nia.
    assert (2 * (m - k * B) * 18014398509481984
            <= 18014398509481984 + 2 * (k * B)) by nia.
    assert (k * B < 4503599627370496 * B).
    { apply Z.mul_lt_mono_pos_r; lia. }
    nia.
Qed.

Lemma of_int_100 : of_int 100 = mk (100 * 2 ^ 46) (- 46).
Proof. reflexivity. Qed.

(** A sum of three terms, each bounded in absolute value. *)
Lemma abs_sum3 (a b c x y z : Z) :
  Z.abs a <= x -> Z.abs b <= y -> Z.abs c <= z ->
  Z.abs (a + b + c) <= x + y + z.
Proof. lia. Qed.

Lemma abs_mul_le (a b x y : Z) :
  Z.abs a <= x -> Z.abs b <= y -> Z.abs (a * b) <= x * y.
Proof.
  intros Ha Hb. rewrite Z.abs_mul.
  pose proof (Z.abs_nonneg a). pose proof (Z.abs_nonneg b).
  apply Z.mul_le_mono_nonneg; lia.
Qed.

(** The three roundings behind one percentage, as integer inequalities:
    [m1 / A] is the rounded quotient, [m2 / B] the rounded product by 100
    and [p] the rounded result. *)
Lemma three_roundings (s t p m1 m2 A B : Z) :
  0 < t -> 2 ^ 52 <= A -> 2 ^ 46 <= B ->
  Z.abs (2 * (m1 * t - s * A)) <= t ->
  Z.abs (2 * (m2 * A - 100 * m1 * B)) <= A ->
  Z.abs (2 * (p * B - m2)) <= B ->
  2 ^ 52 * Z.abs (t * p - 100 * s) <= t * (2 ^ 51 + 82).
Proof.
  intros Ht HA HB H1 H2 H3.
  assert (P52 : 2 ^ 52 = 4503599627370496) by reflexivity.
  assert (P51 : 2 ^ 51 = 2251799813685248) by reflexivity.
  assert (P46 : 2 ^ 46 = 70368744177664) by reflexivity.
  rewrite P52 in *. rewrite P51. rewrite P46 in *.
  assert (HX : Z.abs (2 * A * B * (t * p - 100 * s))
               <= A * t * B + t * A + 100 * B * t).
  { replace (2 * A * B * (t * p - 100 * s))
      with ((A * t) * (2 * (p * B - m2))
            + t * (2 * (m2 * A - 100 * m1 * B))
            + (100 * B) * (2 * (m1 * t - s * A))) by ring.
    apply abs_sum3; apply abs_mul_le; try assumption;
      rewrite Z.abs_eq; nia. }
  rewrite Z.abs_mul, (Z.abs_eq (2 * A * B)) in HX by nia.
  set (X := Z.abs (t * p - 100 * s)) in *.
  assert (HAB : 4503599627370496 * A + 100 * 4503599627370496 * B
                <= 164 * (A * B)) by nia.
  apply (Z.mul_le_mono_pos_r _ _ (2 * A * B)); [nia|].
  transitivity (4503599627370496 * (A * t * B + t * A + 100 * B * t)).
  - nia.
  - replace (4503599627370496 * (A * t * B + t * A + 100 * B * t))
      with (t * (4503599627370496 * (A * B)
                 + (4503599627370496 * A + 100 * 4503599627370496 * B)))
      by ring.
    replace (t * (2251799813685248 + 82) * (2 * A * B))
      with (t * (4503599627370496 * (A * B) + 164 * (A * B))) by ring.
    apply Z.mul_le_mono_nonneg_l; lia.
Qed.

(** Signs: the program only handles non-negative numbers. *)
Lemma rn_nonneg (n d : Z) : 0 <= n -> 0 < d -> 0 <= mant (rn n d).
Proof.
  intros Hn Hd. unfold rn, scaled.
  destruct (0 <=? Z.max (ilog2 (Z.abs n) d - 52) (- 1074)) eqn:E;
    cbn [mant].
  - apply Z.leb_le in E. apply rne_nonneg; [assumption|].
    pose proof (pow2_pos _ E). nia.
  - apply Z.leb_gt in E. apply rne_nonneg; [|assumption].
    pose proof (pow2_pos (- Z.max (ilog2 (Z.abs n) d - 52) (- 1074))
                  ltac:(lia)). nia.
Qed.

Lemma mul_nonneg (x y : t) :
  0 <= mant x -> 0 <= mant y -> 0 <= mant (mul x y).
Proof.
  intros Hx Hy. unfold mul.
  destruct (Z.leb_spec 0 (expo x + expo y)) as [E|E].
  - apply rn_nonneg; [|lia]. pose proof (pow2_pos _ E). nia.
  - apply rn_nonneg; [nia|]. apply pow2_pos. lia.
Qed.

Lemma to_int_nonneg (x : t) : 0 <= mant x -> 0 <= to_int x.
Proof.
  intros Hx. unfold to_int. destruct (Z.leb_spec 0 (expo x)) as [E|E].
  - pose proof (pow2_pos _ E). nia.
  - apply Z.quot_pos; [assumption|].
    pose proof (pow2_pos (- expo x) ltac:(lia)). lia.
Qed.

Lemma to_int_product_nonneg (z : Z) (y : t) :
  0 <= z -> 0 <= mant y -> 0 <= to_int (mul (of_int z) y).
Proof.
  intros Hz Hy. apply to_int_nonneg, mul_nonneg; [|assumption].
  apply rn_nonneg; lia.
Qed.

End B64Facts.

(** ** The percentage of one category *)

(** [round((score / total) * 100)] stays within [1/2 + 82 * 2^-52] of the
    exact percentage, whatever the size of the scores. *)
Lemma percentage_error (s t : Z) :
  0 <= s <= t -> 0 < t ->
  exists p, percentage s t = Ok p
            /\ 2 ^ 52 * Z.abs (t * p - 100 * s) <= t * (2 ^ 51 + 82).
Proof.
  intros Hs Ht. unfold percentage, B64.true_div.
  destruct (Z.eqb_spec t 0); [lia|].
  destruct (Z.ltb_spec t 0); [lia|].
  destruct (B64Facts.rn_small s t 1) as (E1 & HE1 & ->); try lia.
  rewrite B64Facts.of_int_100. unfold B64.mul. cbn [B64.mant B64.expo].
  destruct (Z.leb_spec 0 (- E1 + - 46)); [lia|].
  replace (- (- E1 + - 46)) with (E1 + 46) by lia.
  pose proof (B64Facts.pow2_pos E1 ltac:(lia)) as HP1.
  assert (HD : 2 ^ (E1 + 46) = 2 ^ E1 * 2 ^ 46) by (rewrite Z.pow_add_r; lia).
  assert (HA : 2 ^ 52 <= 2 ^ E1) by (apply Z.pow_le_mono_r; lia).
  pose proof (B64Facts.rne_near (s * 2 ^ E1) t Ht) as R1.
  pose proof (B64Facts.rne_nonneg (s * 2 ^ E1) t ltac:(nia) Ht) as Hm1.
  set (m1 := B64.rne (s * 2 ^ E1) t) in *.
  assert (Hm1': m1 <= 2 ^ E1) by nia.
  destruct (B64Facts.rn_small (m1 * (100 * 2 ^ 46)) (2 ^ (E1 + 46)) 7)
    as (E2 & HE2 & ->); try lia.
  pose proof (B64Facts.pow2_pos E2 ltac:(lia)) as HP2.
  assert (HB : 2 ^ 46 <= 2 ^ E2) by (apply Z.pow_le_mono_r; lia).
  pose proof (B64Facts.rne_near (m1 * (100 * 2 ^ 46) * 2 ^ E2)
                (2 ^ (E1 + 46)) ltac:(lia)) as R2.
  set (m2 := B64.rne (m1 * (100 * 2 ^ 46) * 2 ^ E2) (2 ^ (E1 + 46))) in *.
  unfold B64.round. cbn [B64.mant B64.expo].
  destruct (Z.leb_spec 0 (- E2)); [lia|].
  rewrite Z.opp_involutive.
  pose proof (B64Facts.rne_near m2 (2 ^ E2) HP2) as R3.
  set (p := B64.rne m2 (2 ^ E2)) in *.
  exists p. split; [reflexivity|].
  apply (B64Facts.three_roundings s t p m1 m2 (2 ^ E1) (2 ^ E2));
    try assumption.
  rewrite HD in R2.
  replace (2 * (m2 * (2 ^ E1 * 2 ^ 46) - m1 * (100 * 2 ^ 46) * 2 ^ E2))
    with (2 * (m2 * 2 ^ E1 - 100 * m1 * 2 ^ E2) * 2 ^ 46) in R2 by ring.
  rewrite Z.abs_mul in R2. change (Z.abs (2 ^ 46)) with (2 ^ 46) in R2.
  apply (Z.mul_le_mono_pos_r _ _ (2 ^ 46)); [reflexivity|]. lia.
Qed.

(** Below [2 ^ 44] the float error is smaller than the distance between the
    exact percentage and the nearest half-integer it does not sit on. *)
Lemma percentage_nearest (s t : Z) :
  0 <= s <= t -> 0 < t < 2 ^ 44 ->
  exists p, percentage s t = Ok p /\ nearest_percentage s t p.
Proof.
  intros Hs Ht.
  destruct (percentage_error s t Hs ltac:(lia)) as (p & Ep & Herr).
  exists p. split; [exact Ep|].
  assert (P52 : 2 ^ 52 = 4503599627370496) by reflexivity.
  assert (P51 : 2 ^ 51 = 2251799813685248) by reflexivity.
  assert (P44 : 2 ^ 44 = 17592186044416) by reflexivity.
  rewrite P52, P51 in Herr. rewrite P44 in Ht.
  assert (Hnear : 2 * Z.abs (t * p - 100 * s) <= t) by lia.
  split; [exact Hnear|].
  intros Htie. unfold half_even_percentage, B64.rne.
  pose proof (Z.div_mod (s * 100) t ltac:(lia)) as E.
  pose proof (Z.mod_pos_bound (s * 100) t ltac:(lia)) as B.
  set (q := (s * 100) / t) in *. set (r := (s * 100) mod t) in *.
  assert (Hpq : p = q \/ p = q + 1) by nia.
  destruct (Z.compare_spec (2 * r) t) as [C|C|C]; [contradiction| |];
    destruct Hpq as [->| ->]; try reflexivity; exfalso; nia.
Qed.

(** The three percentages of a score set add up to 99, 100 or 101. *)
Lemma percentages_sum (sb so sr : Z) :
  0 <= sb -> 0 <= so -> 0 <= sr -> 0 < sb + so + sr ->
  exists pb po pr,
    percentage sb (sb + so + sr) = Ok pb
    /\ percentage so (sb + so + sr) = Ok po
    /\ percentage sr (sb + so + sr) = Ok pr
    /\ 99 <= pb + po + pr <= 101.
Proof.
  intros Hb Ho Hr Ht. set (t := sb + so + sr) in *.
  destruct (percentage_error sb t ltac:(lia) Ht) as (pb & Eb & Xb).
  destruct (percentage_error so t ltac:(lia) Ht) as (po & Eo & Xo).
  destruct (percentage_error sr t ltac:(lia) Ht) as (pr & Er & Xr).
  exists pb, po, pr. repeat split; try assumption.
  - assert (P52 : 2 ^ 52 = 4503599627370496) by reflexivity.
    assert (P51 : 2 ^ 51 = 2251799813685248) by reflexivity.
    rewrite P52, P51 in *.
    assert (H : 4503599627370496 * (t * (100 - (pb + po + pr)))
                <= 3 * (t * (2251799813685248 + 82))) by (subst t; lia).
    nia.
  - assert (P52 : 2 ^ 52 = 4503599627370496) by reflexivity.
    assert (P51 : 2 ^ 51 = 2251799813685248) by reflexivity.
    rewrite P52, P51 in *.
    assert (H : 4503599627370496 * (t * ((pb + po + pr) - 100))
                <= 3 * (t * (2251799813685248 + 82))) by (subst t; lia).
    nia.
Qed.

(** ** The adjustments of [analyze_archetype] *)

Lemma boost_value (n : Z) :
  0 <= n -> 10 * n < 2 ^ 52 ->
  B64.to_int (B64.mul (B64.of_int (10 * n)) B64.lit_1_5) = 15 * n.
Proof.
  intros Hn Hlt. replace (10 * n) with (2 * (5 * n)) in * by ring.
  rewrite B64Facts.to_int_mul_1_5; lia.
Qed.

(** The bound on the score matters: with [2 ^ 50 + 1] Bridge hits the
    product by [1.5] needs 54 bits and is rounded. *)
Lemma boost_exactness_limit :
  B64.to_int (B64.mul (B64.of_int (10 * (2 ^ 50 + 1))) B64.lit_1_5)
  = 15 * (2 ^ 50 + 1) + 1.
Proof. vm_compute. reflexivity. Qed.

Lemma shift_value (n : Z) :
  0 <= n -> 10 * n < 2 ^ 52 ->
  B64.to_int (B64.mul (B64.of_int (10 * n)) B64.lit_0_2) = 2 * n.
Proof.
  intros Hn Hlt. replace (10 * n) with (5 * (2 * n)) in * by ring.
  rewrite B64Facts.to_int_mul_0_2; lia.
Qed.

Lemma short_text_hits (L : list string) (text : string) :
  short_text text ->
  0 <= Z.of_nat (hits L text) /\ 10 * Z.of_nat (hits L text) < 2 ^ 52.
Proof.
  unfold short_text. intros H. pose proof (hits_le_length L text).
  change (2 ^ 52) with (16 * 2 ^ 48). lia.
Qed.

(** The scores of a short text after the commercial boost and after the
    executive shift, from its numbers of hits. *)
Lemma after_boost_value (text : string) :
  short_text text ->
  after_boost text
  = {| builder_score := 10 * Z.of_nat (hits BUILDER_VERBS text);
       operator_score := 10 * Z.of_nat (hits OPERATOR_VERBS text);
       bridge_score :=
         if is_commercial text then 15 * Z.of_nat (hits BRIDGE_VERBS text)
         else 10 * Z.of_nat (hits BRIDGE_VERBS text) |}.
Proof.
  intros Hs. unfold after_boost. rewrite base_scores_hits.
  unfold commercial_boost. destruct (is_commercial text); [|reflexivity].
  cbn [builder_score operator_score bridge_score].
  destruct (short_text_hits BRIDGE_VERBS text Hs).
  now rewrite boost_value.
Qed.

Lemma after_shift_value (text : string) :
  short_text text ->
  after_shift text
  = {| builder_score := 10 * Z.of_nat (hits BUILDER_VERBS text);
       operator_score :=
         if is_executive text then 8 * Z.of_nat (hits OPERATOR_VERBS text)
         else 10 * Z.of_nat (hits OPERATOR_VERBS text);
       bridge_score :=
         (if is_commercial text then 15 * Z.of_nat (hits BRIDGE_VERBS text)
          else 10 * Z.of_nat (hits BRIDGE_VERBS text))
         + (if is_executive text then 2 * Z.of_nat (hits OPERATOR_VERBS text)
            else 0) |}.
Proof.
  intros Hs. unfold after_shift. rewrite after_boost_value by assumption.
  unfold executive_shift. destruct (is_executive text).
  - cbn [builder_score operator_score bridge_score].
    destruct (short_text_hits OPERATOR_VERBS text Hs).
    rewrite shift_value by assumption. f_equal. lia.
  - f_equal. lia.
Qed.

Lemma floor_times_15 (n : Z) : floor_times (10 * n) 15 10 = 15 * n.
Proof.
  unfold floor_times. replace (10 * n * 15) with (15 * n * 10) by ring.
  now rewrite Z.div_mul.
Qed.

Lemma floor_times_2 (n : Z) : floor_times (10 * n) 2 10 = 2 * n.
Proof.
  unfold floor_times. replace (10 * n * 2) with (2 * n * 10) by ring.
  now rewrite Z.div_mul.
Qed.

(** The Builder score goes through both adjustments untouched, the shift
    moves points from Operator to Bridge, and the boost never makes the
    Bridge score negative: the total is positive as soon as one base score
    is. *)
Lemma after_shift_builder (text : string) :
  builder_score (after_shift text) = builder_score (base_scores text).
Proof.
  unfold after_shift, after_boost, executive_shift, commercial_boost.
  destruct (is_executive text), (is_commercial text); reflexivity.
Qed.

Lemma after_shift_total (text : string) :
  builder_score (after_shift text) + operator_score (after_shift text)
  + bridge_score (after_shift text)
  = builder_score (base_scores text) + operator_score (base_scores text)
    + bridge_score (after_boost text).
Proof.
  unfold after_shift, after_boost, executive_shift, commercial_boost.
  destruct (is_executive text), (is_commercial text);
    cbn [builder_score operator_score bridge_score]; lia.
Qed.

Lemma base_scores_nonneg (text : string) :
  0 <= builder_score (base_scores text)
  /\ 0 <= operator_score (base_scores text)
  /\ 0 <= bridge_score (base_scores text).
Proof.
  rewrite base_scores_hits. cbn [builder_score operator_score bridge_score].
  lia.
Qed.

Lemma after_boost_bridge_nonneg (text : string) :
  0 <= bridge_score (after_boost text).
Proof.
  destruct (base_scores_nonneg text) as (_ & _ & Hr).
  unfold after_boost, commercial_boost.
  destruct (is_commercial text); [|assumption].
  cbn [bridge_score]. apply B64Facts.to_int_product_nonneg; [assumption|].
  cbn. lia.
Qed.

Lemma analyze_builder_le (text : string) :
  Builder (analyze_archetype text) <= builder_score (base_scores text).
Proof.
  destruct (base_scores_nonneg text) as (Hb & _ & _).
  unfold analyze_archetype, finish.
  destruct (_ =? 0); cbn [Builder]; [assumption|].
  rewrite after_shift_builder. lia.
Qed.

Lemma analyze_builder_pos (text : string) :
  0 < builder_score (base_scores text) ->
  Builder (analyze_archetype text) = builder_score (base_scores text).
Proof.
  intros Hpos.
  destruct (base_scores_nonneg text) as (_ & Ho & _).
  pose proof (after_boost_bridge_nonneg text) as Hr.
  unfold analyze_archetype, finish. rewrite after_shift_total.
  destruct (Z.eqb_spec (builder_score (base_scores text)
                        + operator_score (base_scores text)
                        + bridge_score (after_boost text)) 0); [lia|].
  cbn [Builder]. apply after_shift_builder.
Qed.

(** ** The resolver is defined on every non-zero total *)

Lemma percentage_defined (s t : Z) : t <> 0 -> exists p, percentage s t = Ok p.
Proof.
  intros Ht. unfold percentage, B64.true_div.
  destruct (Z.eqb_spec t 0); [contradiction|].
  destruct (t <? 0); eexists; reflexivity.
Qed.

Lemma sorted_desc_three (x y z : string * Z) :
  exists a b c, sorted_desc [x; y; z] = [a; b; c].
Proof.
  simpl. destruct (snd z <=? snd y); simpl.
  - destruct (snd y <=? snd x); simpl; [now eexists; eexists; eexists|].
    destruct (snd z <=? snd x); now eexists; eexists; eexists.
  - destruct (snd z <=? snd x); simpl; [now eexists; eexists; eexists|].
    destruct (snd y <=? snd x); now eexists; eexists; eexists.
Qed.

(** What a successful call of [get_archetype_percentages] returned. *)
Lemma resolved_inv (scores : ScoreSet) (r : Resolved) :
  get_archetype_percentages scores = Ok r ->
  exists pb po pr,
    percentage (Builder scores) (Total scores) = Ok pb
    /\ percentage (Operator scores) (Total scores) = Ok po
    /\ percentage (Bridge scores) (Total scores) = Ok pr
    /\ pcts r = [("Builder", pb); ("Operator", po); ("Bridge", pr)]
    /\ sorted_pcts r = sorted_desc (pcts r)
    /\ is_hybrid r = (gap r <? 20).
Proof.
  unfold get_archetype_percentages. intros H.
  destruct (percentage (Builder scores) (Total scores)) as [pb|]; [|discriminate].
  destruct (percentage (Operator scores) (Total scores)) as [po|]; [|discriminate].
  destruct (percentage (Bridge scores) (Total scores)) as [pr|]; [|discriminate].
  exists pb, po, pr.
  destruct (sorted_desc_three ("Builder", pb) ("Operator", po) ("Bridge", pr))
    as (a & b & c & E).
  rewrite E in H. injection H as <-. unfold gap. cbn [pcts sorted_pcts is_hybrid].
  rewrite E. repeat split; reflexivity.
Qed.

Lemma resolved_defined (scores : ScoreSet) :
  Total scores <> 0 -> exists r, get_archetype_percentages scores = Ok r.
Proof.
  intros Ht. unfold get_archetype_percentages.
  destruct (percentage_defined (Builder scores) _ Ht) as [pb ->].
  destruct (percentage_defined (Operator scores) _ Ht) as [po ->].
  destruct (percentage_defined (Bridge scores) _ Ht) as [pr ->].
  destruct (sorted_desc_three ("Builder", pb) ("Operator", po) ("Bridge", pr))
    as (a & b & c & ->).
  eexists; reflexivity.
Qed.

Lemma total_nonzero (text : string) : Total (analyze_archetype text) <> 0.
Proof.
  unfold analyze_archetype, finish.
  destruct (Z.eqb_spec (builder_score (after_shift text)
                        + operator_score (after_shift text)
                        + bridge_score (after_shift text)) 0);
    cbn [Total]; lia.
Qed.

(** ** The ranking: a stable sort by decreasing percentage *)

Lemma insert_desc_perm (x : string * Z) (l : list (string * Z)) :
  Permutation (x :: l) (insert_desc x l).
Proof.
  induction l as [|y l IH]; simpl; [reflexivity|].
  destruct (snd y <=? snd x); [reflexivity|].
  rewrite perm_swap. now constructor.
Qed.

Lemma sorted_desc_perm (l : list (string * Z)) : Permutation l (sorted_desc l).
Proof.
  induction l as [|x l IH]; simpl; [reflexivity|].
  rewrite <- insert_desc_perm. now constructor.
Qed.

Lemma insert_desc_descending (x : string * Z) (l : list (string * Z)) :
  descending l -> descending (insert_desc x l).
Proof.
  unfold descending. induction l as [|y l IH]; intros Hl; simpl.
  - constructor; constructor.
  - inversion Hl as [|? ? Hl' Hy]; subst.
    destruct (Z.leb_spec (snd y) (snd x)) as [Hle|Hgt].
    + constructor; [assumption|]. constructor; [assumption|].
      eapply Forall_impl; [|exact Hy]. simpl. intros; lia.
    + constructor; [now apply IH|].
      eapply Permutation_Forall; [apply insert_desc_perm|].
      constructor; [lia|assumption].
Qed.

Lemma sorted_desc_descending (l : list (string * Z)) : descending (sorted_desc l).
Proof.
  induction l as [|x l IH]; simpl; [constructor|].
  now apply insert_desc_descending.
Qed.

(** Stability: the items of one percentage keep their order. *)
Lemma insert_desc_stable (v : Z) (x : string * Z) (l : list (string * Z)) :
  with_percentage v (insert_desc x l) = with_percentage v (x :: l).
Proof.
  unfold with_percentage. induction l as [|y l IH]; [reflexivity|].
  cbn [insert_desc]. destruct (Z.leb_spec (snd y) (snd x)) as [Hle|Hgt];
    [reflexivity|].
  cbn [filter] in *. rewrite IH.
  destruct (Z.eqb_spec (snd x) v), (Z.eqb_spec (snd y) v);
    try reflexivity; lia.
Qed.

Lemma sorted_desc_stable (v : Z) (l : list (string * Z)) :
  with_percentage v (sorted_desc l) = with_percentage v l.
Proof.
  induction l as [|x l IH]; [reflexivity|].
  cbn [sorted_desc]. rewrite insert_desc_stable.
  unfold with_percentage in *. cbn [filter]. now rewrite IH.
Qed.

(** * The claims *)

(** C1 (amended).  For every input text the tokens are the maximal runs of
    word characters (letters, digits and the underscore) of the lower-cased
    text, and each category's base score is 10 times the number of tokens
    that are in the category's keyword list, repeated occurrences counted
    each time.  The text [I build and build and build products] yields
    Builder 30, Operator 0, Bridge 0, Total 30, percentages 100, 0, 0,
    primary Builder, secondary Operator, gap 100 and hybrid false. *)
Theorem base_score_counts_word_tokens (text : string) :
  let words := findall_words (lower text) in
  let count L := Z.of_nat (List.length (filter (fun w => mem w L) words)) in
  (forall ts, Tokenised is_word (lower text) ts <-> ts = words)
  /\ builder_score (base_scores text) = 10 * count BUILDER_VERBS
  /\ operator_score (base_scores text) = 10 * count OPERATOR_VERBS
  /\ bridge_score (base_scores text) = 10 * count BRIDGE_VERBS
  /\ analyze_archetype "I build and build and build products"
     = {| Builder := 30; Operator := 0; Bridge := 0; Total := 30 |}
  /\ get_archetype_percentages
       {| Builder := 30; Operator := 0; Bridge := 0; Total := 30 |}
     = Ok {| pcts := [("Builder", 100); ("Operator", 0); ("Bridge", 0)];
             sorted_pcts := [("Builder", 100); ("Operator", 0); ("Bridge", 0)];
             is_hybrid := false |}
  /\ gap {| pcts := [("Builder", 100); ("Operator", 0); ("Bridge", 0)];
            sorted_pcts := [("Builder", 100); ("Operator", 0); ("Bridge", 0)];
            is_hybrid := false |} = 100.
Proof.
  intros words count. split; [|split; [|split; [|split; [|split; [|split]]]]].
  - intros ts. split.
    + apply Tokenised_unique.
    + intros ->. apply Tokenised_runs.
  - unfold base_scores. cbn [builder_score]. apply sum10_count.
  - unfold base_scores. cbn [operator_score]. apply sum10_count.
  - unfold base_scores. cbn [bridge_score]. apply sum10_count.
  - vm_compute. reflexivity.
  - vm_compute. reflexivity.
  - reflexivity.
Qed.

(** The claim C1 as worded, with the tokens taken as the runs of
    alphanumeric characters, fails on [build_]: the underscore is a word
    character, the only token is [build_] and the Builder score is 0, while
    the alphanumeric run [build] is a keyword. *)
Lemma alnum_tokens_counterexample :
  builder_score (base_scores "build_")
  <> 10 * Z.of_nat (List.length (filter (fun w => mem w BUILDER_VERBS)
                                   (alnum_runs "build_"))).
Proof. vm_compute. discriminate. Qed.

(** C2.  When the lower-cased text holds a commercial phrase as a raw
    substring, the Bridge score after Adjustment A is [floor (B * 1.5)] for
    the Bridge base score [B]; when it holds none, Adjustment A leaves the
    Bridge score as it is.  (Texts of fewer than [2 ^ 48] characters.) *)
Theorem commercial_boost_floor (text : string) :
  short_text text ->
  let B := bridge_score (base_scores text) in
  (occurs SALES_KEYWORDS text ->
   bridge_score (after_boost text) = floor_times B 15 10)
  /\ (~ occurs SALES_KEYWORDS text -> bridge_score (after_boost text) = B).
Proof.
  intros Hs B. subst B.
  rewrite after_boost_value by assumption. rewrite base_scores_hits.
  cbn [bridge_score]. unfold is_commercial. split; intros H.
  - apply any_in_iff in H. rewrite H. now rewrite floor_times_15.
  - destruct (any_in SALES_KEYWORDS (lower text)) eqn:E; [|reflexivity].
    exfalso. apply H. now apply any_in_iff.
Qed.

Lemma commercial_boost_floor_witness :
  (short_text "Sales lead: sell and negotiate"
   /\ occurs SALES_KEYWORDS "Sales lead: sell and negotiate"
   /\ bridge_score (after_boost "Sales lead: sell and negotiate") = 30)
  /\ (short_text "sell and negotiate"
      /\ ~ occurs SALES_KEYWORDS "sell and negotiate"
      /\ bridge_score (after_boost "sell and negotiate") = 20).
Proof.
  assert (S1 : short_text "Sales lead: sell and negotiate") by reflexivity.
  assert (S2 : short_text "sell and negotiate") by reflexivity.
  assert (O1 : occurs SALES_KEYWORDS "Sales lead: sell and negotiate")
    by (apply any_in_iff; reflexivity).
  assert (O2 : ~ occurs SALES_KEYWORDS "sell and negotiate")
    by (intros H; apply any_in_iff in H; discriminate H).
  split; (split; [assumption|split; [assumption|]]).
  - exact (proj1 (commercial_boost_floor _ S1) O1).
  - exact (proj2 (commercial_boost_floor _ S2) O2).
Defined.

(** C3.  When the lower-cased text holds an executive phrase as a raw
    substring, with [O] and [Br] the Operator and Bridge scores after
    Adjustment A, the final Operator score is [O - floor (O * 0.2)] and the
    final Bridge score is [Br + floor (O * 0.2)], the same shift taken from
    the Operator score before the shift; the Builder score is not changed.
    (Texts of fewer than [2 ^ 48] characters.) *)
Theorem executive_shift_floor (text : string) :
  short_text text ->
  occurs EXECUTIVE_KEYWORDS text ->
  let O := operator_score (after_boost text) in
  let Br := bridge_score (after_boost text) in
  let shift := floor_times O 2 10 in
  after_shift text
  = {| builder_score := builder_score (after_boost text);
       operator_score := O - shift;
       bridge_score := Br + shift |}
  /\ Builder (analyze_archetype text) = builder_score (after_boost text)
  /\ Operator (analyze_archetype text) = O - shift
  /\ Bridge (analyze_archetype text) = Br + shift.
Proof.
  intros Hs He O Br shift. subst O Br shift.
  apply any_in_iff in He. fold (is_executive text) in He.
  unfold analyze_archetype.
  rewrite after_shift_value, after_boost_value by assumption.
  rewrite He. cbn [builder_score operator_score bridge_score].
  rewrite floor_times_2.
  set (nb := Z.of_nat (hits BUILDER_VERBS text)).
  set (no := Z.of_nat (hits OPERATOR_VERBS text)).
  set (nr := Z.of_nat (hits BRIDGE_VERBS text)).
  assert (0 <= nb /\ 0 <= no /\ 0 <= nr) as (Hb & Ho & Hr) by (subst nb no nr; lia).
  split; [f_equal; lia|].
  unfold finish. cbn [builder_score operator_score bridge_score].
  destruct (is_commercial text);
    match goal with |- context [?t =? 0] => destruct (Z.eqb_spec t 0) end;
    cbn [Builder Operator Bridge]; lia.
Qed.

Lemma executive_shift_floor_witness :
  short_text "Director: manage, run and oversee; coach"
  /\ occurs EXECUTIVE_KEYWORDS "Director: manage, run and oversee; coach"
  /\ after_shift "Director: manage, run and oversee; coach"
     = {| builder_score := 0; operator_score := 30 - 6; bridge_score := 10 + 6 |}
  /\ analyze_archetype "Director: manage, run and oversee; coach"
     = {| Builder := 0; Operator := 24; Bridge := 16; Total := 40 |}.
Proof.
  assert (S1 : short_text "Director: manage, run and oversee; coach")
    by reflexivity.
  assert (O1 : occurs EXECUTIVE_KEYWORDS "Director: manage, run and oversee; coach")
    by (apply any_in_iff; reflexivity).
  split; [assumption|split; [assumption|split]].
  - exact (proj1 (executive_shift_floor _ S1 O1)).
  - reflexivity.
Defined.

(** C4.  A text with no lexicon match in any of the three categories (the
    empty string among them) gets the sentinel: Builder, Operator and Bridge
    0 and Total 1.  The division of the resolver is then by 1, and on every
    text by a non-zero total; the sentinel resolves to the percentages 0, 0,
    0, gap 0 and hybrid true. *)
Theorem no_hits_sentinel (text : string) :
  hits BUILDER_VERBS text = 0%nat ->
  hits OPERATOR_VERBS text = 0%nat ->
  hits BRIDGE_VERBS text = 0%nat ->
  analyze_archetype text = sentinel
  /\ Total (analyze_archetype text) = 1
  /\ (forall t, Total (analyze_archetype t) <> 0)
  /\ (forall t, get_archetype_percentages (analyze_archetype t)
                <> Raise ZeroDivisionError)
  /\ exists r,
       get_archetype_percentages (analyze_archetype text) = Ok r
       /\ pcts r = [("Builder", 0); ("Operator", 0); ("Bridge", 0)]
       /\ gap r = 0
       /\ is_hybrid r = true.
Proof.
  intros Hb Ho Hr.
  assert (E : analyze_archetype text = sentinel).
  { unfold analyze_archetype, after_shift, after_boost.
    rewrite base_scores_hits, Hb, Ho, Hr.
    destruct (is_commercial text), (is_executive text); reflexivity. }
  rewrite E. split; [reflexivity|split; [reflexivity|split; [|split]]].
  - apply total_nonzero.
  - intros t. destruct (resolved_defined _ (total_nonzero t)) as [r ->].
    discriminate.
  - eexists. split; [vm_compute; reflexivity|]. repeat split.
Qed.

Lemma no_hits_sentinel_witness :
  hits BUILDER_VERBS "" = 0%nat
  /\ hits OPERATOR_VERBS "" = 0%nat
  /\ hits BRIDGE_VERBS "" = 0%nat
  /\ analyze_archetype "" = sentinel
  /\ hits BUILDER_VERBS "Hello, world: rebuilding_42!" = 0%nat
  /\ analyze_archetype "Hello, world: rebuilding_42!" = sentinel.
Proof.
  split; [reflexivity|split; [reflexivity|split; [reflexivity|split]]].
  - exact (proj1 (no_hits_sentinel "" eq_refl eq_refl eq_refl)).
  - split; [reflexivity|].
    exact (proj1 (no_hits_sentinel "Hello, world: rebuilding_42!"
                    eq_refl eq_refl eq_refl)).
Defined.

(** C5.  The resolver ranks the three pairs (category, percentage) by a
    stable sort in descending order of percentage with no second key:
    categories of equal percentage stay in the order Builder, Operator,
    Bridge.  A text with two Builder hits, two Operator hits and no context
    phrase resolves to Builder 50, Operator 50, Bridge 0, with Builder
    ranked before Operator, gap 0 and hybrid true. *)
Theorem ranking_is_stable_sort :
  (forall scores r,
      get_archetype_percentages scores = Ok r ->
      map fst (pcts r) = ["Builder"; "Operator"; "Bridge"]
      /\ Permutation (pcts r) (sorted_pcts r)
      /\ descending (sorted_pcts r)
      /\ forall v, with_percentage v (sorted_pcts r) = with_percentage v (pcts r))
  /\ (forall text,
         hits BUILDER_VERBS text = 2%nat ->
         hits OPERATOR_VERBS text = 2%nat ->
         hits BRIDGE_VERBS text = 0%nat ->
         ~ occurs SALES_KEYWORDS text ->
         ~ occurs EXECUTIVE_KEYWORDS text ->
         exists r,
           get_archetype_percentages (analyze_archetype text) = Ok r
           /\ pcts r = [("Builder", 50); ("Operator", 50); ("Bridge", 0)]
           /\ sorted_pcts r = [("Builder", 50); ("Operator", 50); ("Bridge", 0)]
           /\ gap r = 0
           /\ is_hybrid r = true).
Proof.
  split.
  - intros scores r H.
    destruct (resolved_inv scores r H) as (pb & po & pr & _ & _ & _ & Ep & Es & _).
    rewrite Es. repeat split.
    + now rewrite Ep.
    + apply sorted_desc_perm.
    + apply sorted_desc_descending.
    + intros v. apply sorted_desc_stable.
  - intros text Hb Ho Hr Hc He.
    assert (Ec : is_commercial text = false).
    { destruct (is_commercial text) eqn:E; [|reflexivity].
      exfalso. apply Hc. now apply any_in_iff. }
    assert (Ee : is_executive text = false).
    { destruct (is_executive text) eqn:E; [|reflexivity].
      exfalso. apply He. now apply any_in_iff. }
    assert (E : analyze_archetype text
                = {| Builder := 20; Operator := 20; Bridge := 0; Total := 40 |}).
    { unfold analyze_archetype, after_shift, after_boost.
      rewrite Ec, Ee, base_scores_hits, Hb, Ho, Hr. reflexivity. }
    rewrite E. eexists. split; [vm_compute; reflexivity|]. repeat split.
Qed.

Lemma ranking_is_stable_sort_witness :
  (exists r,
      get_archetype_percentages
        {| Builder := 10; Operator := 10; Bridge := 10; Total := 30 |} = Ok r
      /\ with_percentage 33 (sorted_pcts r)
         = [("Builder", 33); ("Operator", 33); ("Bridge", 33)])
  /\ (exists r,
         get_archetype_percentages
           (analyze_archetype "Build the code; manage and run it") = Ok r
         /\ sorted_pcts r = [("Builder", 50); ("Operator", 50); ("Bridge", 0)]).
Proof.
  assert (H1 : get_archetype_percentages
                 {| Builder := 10; Operator := 10; Bridge := 10; Total := 30 |}
               = Ok {| pcts := [("Builder", 33); ("Operator", 33); ("Bridge", 33)];
                       sorted_pcts :=
                         [("Builder", 33); ("Operator", 33); ("Bridge", 33)];
                       is_hybrid := true |})
    by (vm_compute; reflexivity).
  assert (Hb : hits BUILDER_VERBS "Build the code; manage and run it" = 2%nat)
    by (vm_compute; reflexivity).
  assert (Ho : hits OPERATOR_VERBS "Build the code; manage and run it" = 2%nat)
    by (vm_compute; reflexivity).
  assert (Hr : hits BRIDGE_VERBS "Build the code; manage and run it" = 0%nat)
    by (vm_compute; reflexivity).
  assert (Hc : ~ occurs SALES_KEYWORDS "Build the code; manage and run it")
    by (intros H; apply any_in_iff in H; vm_compute in H; discriminate H).
  assert (He : ~ occurs EXECUTIVE_KEYWORDS "Build the code; manage and run it")
    by (intros H; apply any_in_iff in H; vm_compute in H; discriminate H).
  split.
  - eexists. split; [exact H1|].
    exact (proj2 (proj2 (proj2 (proj1 ranking_is_stable_sort _ _ H1))) 33).
  - destruct (proj2 ranking_is_stable_sort _ Hb Ho Hr Hc He)
      as (r & Hres & _ & Hs & _).
    exists r. split; assumption.
Defined.

(** C6.  The hybrid flag is true exactly when the primary percentage (rank
    0, the largest) minus the secondary percentage (rank 1) is below 20; the
    percentages returned with it are the ones computed from the scores, and
    the ranked list is their sort. *)
Theorem hybrid_iff_gap_below_20 (scores : ScoreSet) (r : Resolved) :
  get_archetype_percentages scores = Ok r ->
  exists pb po pr primary secondary third,
    percentage (Builder scores) (Total scores) = Ok pb
    /\ percentage (Operator scores) (Total scores) = Ok po
    /\ percentage (Bridge scores) (Total scores) = Ok pr
    /\ pcts r = [("Builder", pb); ("Operator", po); ("Bridge", pr)]
    /\ sorted_pcts r = [primary; secondary; third]
    /\ snd primary = Z.max pb (Z.max po pr)
    /\ snd third = Z.min pb (Z.min po pr)
    /\ snd primary + snd secondary + snd third = pb + po + pr
    /\ (is_hybrid r = true <-> snd primary - snd secondary < 20).
Proof.
  intros H.
  destruct (resolved_inv scores r H) as (pb & po & pr & Hb & Ho & Hr & Ep & Es & Eh).
  exists pb, po, pr.
  unfold gap in Eh. rewrite Eh, Es, Ep. clear Eh Es Ep H.
  cbn [sorted_desc insert_desc snd].
  destruct (Z.leb_spec pr po); cbn [insert_desc snd];
    destruct (Z.leb_spec po pb); cbn [insert_desc snd];
    try destruct (Z.leb_spec pr pb); cbn [insert_desc snd];
    do 3 eexists; (repeat split; try reflexivity; try assumption;
                   cbn [snd]; try rewrite Z.ltb_lt in *; try lia).
Qed.

Lemma hybrid_iff_gap_below_20_witness :
  exists r,
    get_archetype_percentages
      {| Builder := 30; Operator := 20; Bridge := 0; Total := 50 |} = Ok r
    /\ sorted_pcts r = [("Builder", 60); ("Operator", 40); ("Bridge", 0)]
    /\ is_hybrid r = false.
Proof.
  assert (H1 : get_archetype_percentages
                 {| Builder := 30; Operator := 20; Bridge := 0; Total := 50 |}
               = Ok {| pcts := [("Builder", 60); ("Operator", 40); ("Bridge", 0)];
                       sorted_pcts :=
                         [("Builder", 60); ("Operator", 40); ("Bridge", 0)];
                       is_hybrid := false |})
    by (vm_compute; reflexivity).
  eexists. split; [exact H1|]. split; [reflexivity|].
  destruct (hybrid_iff_gap_below_20 _ _ H1)
    as (pb & po & pr & p & q & t & _ & _ & _ & _ & Es & _ & _ & _ & Hh).
  cbn [sorted_pcts is_hybrid snd] in *. injection Es as <- <- <-.
  cbn [snd] in Hh. destruct Hh as [Hh _]. reflexivity.
Defined.

(** C7.  Lexicon matching is by whole tokens.  A keyword that is not itself
    a token of the text adds nothing to the score of its list, wherever
    else it occurs inside longer tokens; a token that is not a keyword adds
    nothing to any score, whatever keywords it holds as substrings.  For
    the token [rebuild]: it holds the Builder keyword [build], and the base
    scores with it are those of the text without it. *)
Theorem whole_word_matching :
  (forall L text k,
      ~ In k (findall_words (lower text)) ->
      sum10 L (findall_words (lower text))
      = sum10 (remove string_dec k L) (findall_words (lower text)))
  /\ (forall L a w b,
         whole_word a w b -> ~ In (lower w) L ->
         sum10 L (findall_words (lower (a ++ w ++ b)))
         = sum10 L (findall_words (lower (a ++ b))))
  /\ (forall a b,
         ends_with is_word a = false -> starts_with is_word b = false ->
         Substring "build" (lower (a ++ "rebuild" ++ b))
         /\ findall_words (lower (a ++ "rebuild" ++ b))
            = (findall_words (lower a) ++ "rebuild" :: findall_words (lower b))%list
         /\ base_scores (a ++ "rebuild" ++ b) = base_scores (a ++ b)).
Proof.
  split; [|split].
  - intros L text k Hk. rewrite !sum10_count. do 3 f_equal.
    apply filter_ext_in. intros w Hw. symmetry. apply mem_remove.
    intros ->. contradiction.
  - intros L a w b Hw Hn.
    destruct (findall_words_whole_word a w b Hw) as [-> ->].
    rewrite !sum10_app, sum10_cons.
    destruct (mem (lower w) L) eqn:E; [|lia].
    apply mem_iff in E. contradiction.
  - intros a b Ha Hb.
    assert (Hw : whole_word a "rebuild" b) by (repeat split; [discriminate|assumption..]).
    split; [|split].
    + exists (lower a ++ "re"), (lower b).
      rewrite !lower_app, append_assoc. reflexivity.
    + apply (findall_words_whole_word a "rebuild" b Hw).
    + rewrite (base_scores_whole_word a "rebuild" b Hw).
      change (mem (lower "rebuild") BUILDER_VERBS) with false.
      change (mem (lower "rebuild") OPERATOR_VERBS) with false.
      change (mem (lower "rebuild") BRIDGE_VERBS) with false.
      destruct (base_scores (a ++ b)). cbn. f_equal; lia.
Qed.

Lemma whole_word_matching_witness :
  (~ In "build" (findall_words (lower "We rebuild and prebuild"))
   /\ sum10 BUILDER_VERBS (findall_words (lower "We rebuild and prebuild"))
      = sum10 (remove string_dec "build" BUILDER_VERBS)
          (findall_words (lower "We rebuild and prebuild")))
  /\ (whole_word "They " "Represented" " us"
      /\ ~ In (lower "Represented") BRIDGE_VERBS
      /\ sum10 BRIDGE_VERBS (findall_words (lower ("They " ++ "Represented" ++ " us")))
         = sum10 BRIDGE_VERBS (findall_words (lower ("They " ++ " us"))))
  /\ (ends_with is_word "We design, " = false
      /\ starts_with is_word "; then ship" = false
      /\ base_scores ("We design, " ++ "rebuild" ++ "; then ship")
         = base_scores ("We design, " ++ "; then ship")).
Proof.
  assert (N1 : ~ In "build" (findall_words (lower "We rebuild and prebuild"))).
  { intros H. apply mem_iff in H. vm_compute in H. discriminate H. }
  assert (W2 : whole_word "They " "Represented" " us").
  { repeat split; [discriminate|reflexivity..]. }
  assert (N2 : ~ In (lower "Represented") BRIDGE_VERBS).
  { intros H. apply mem_iff in H. vm_compute in H. discriminate H. }
  split; [|split].
  - split; [exact N1|]. exact (proj1 whole_word_matching _ _ _ N1).
  - split; [exact W2|]. split; [exact N2|].
    exact (proj1 (proj2 whole_word_matching) _ _ _ _ W2 N2).
  - split; [reflexivity|]. split; [reflexivity|].
    exact (proj2 (proj2 (proj2 (proj2 whole_word_matching)
                                 "We design, " "; then ship" eq_refl eq_refl))).
Defined.

(** C9.  Scoring is monotonic in the occurrences of Builder keywords: a text
    into which one more whole-word occurrence of a Builder keyword is put
    (in any letter case, with the separators that delimit it, and nothing
    else changed) has a Builder score that is not smaller.  Its base Builder
    score counts the new occurrence once. *)
Theorem builder_score_monotonic (a sep1 w sep2 b k : string) :
  In k BUILDER_VERBS -> lower w = k ->
  all_chars (fun c => negb (is_word c)) sep1 = true ->
  all_chars (fun c => negb (is_word c)) sep2 = true ->
  ends_with is_word a = false \/ sep1 <> EmptyString ->
  starts_with is_word b = false \/ sep2 <> EmptyString ->
  Builder (analyze_archetype (a ++ b))
  <= Builder (analyze_archetype (a ++ sep1 ++ w ++ sep2 ++ b))
  /\ builder_score (base_scores (a ++ sep1 ++ w ++ sep2 ++ b))
     = builder_score (base_scores a) + 10 + builder_score (base_scores b).
Proof.
  intros Hk Hw H1 H2 Ha Hb.
  destruct (lexicon_keywords_are_words k) as [Hne Hall];
    [apply in_or_app; now left|].
  assert (Hw0 : w <> EmptyString).
  { intros ->. apply Hne. now rewrite <- Hw. }
  assert (Hw1 : all_chars is_word w = true).
  { rewrite <- all_chars_lower. now rewrite Hw. }
  assert (E : builder_score (base_scores (a ++ sep1 ++ w ++ sep2 ++ b))
              = builder_score (base_scores a) + 10
                + builder_score (base_scores b)).
  { unfold base_scores. cbn [builder_score].
    rewrite findall_words_insert by assumption.
    rewrite sum10_app, sum10_cons, Hw.
    apply mem_iff in Hk. rewrite Hk. lia. }
  split; [|exact E].
  destruct (base_scores_nonneg a) as (Ha0 & _ & _).
  destruct (base_scores_nonneg b) as (Hb0 & _ & _).
  rewrite (analyze_builder_pos (a ++ sep1 ++ w ++ sep2 ++ b)) by lia.
  pose proof (analyze_builder_le (a ++ b)) as Hle.
  assert (Hold : builder_score (base_scores (a ++ b))
                 <= builder_score (base_scores a)
                    + builder_score (base_scores b) + 10).
  { unfold base_scores, findall_words. cbn [builder_score].
    rewrite lower_app. apply sum10_runs_app. }
  lia.
Qed.

Lemma builder_score_monotonic_witness :
  In "build" BUILDER_VERBS /\ lower "Build" = "build"
  /\ Builder (analyze_archetype ("I design" ++ ", then manage"))
     <= Builder (analyze_archetype
                   ("I design" ++ "; " ++ "Build" ++ "" ++ ", then manage")).
Proof.
  assert (Hk : In "build" BUILDER_VERBS) by (apply mem_iff; reflexivity).
  split; [exact Hk|]. split; [reflexivity|].
  refine (proj1 (builder_score_monotonic "I design" "; " "Build" ""
                   ", then manage" "build" Hk eq_refl eq_refl eq_refl _ _)).
  - right. discriminate.
  - left. reflexivity.
Defined.

(* C8 is settled at the end of the file: its statement rests on the
   lemmas on scaling and on the monotonicity of rounding proved there. *)

(** C10.  For every text with at least one lexicon hit the result is not the
    all-zero sentinel and the three percentages add up to 99, 100 or 101.
    (Texts of fewer than [2 ^ 48] characters.) *)
Theorem percentages_sum_99_to_101 (text : string) :
  short_text text ->
  (0 < hits BUILDER_VERBS text + hits OPERATOR_VERBS text
       + hits BRIDGE_VERBS text)%nat ->
  analyze_archetype text <> sentinel
  /\ exists r pb po pr,
       get_archetype_percentages (analyze_archetype text) = Ok r
       /\ pcts r = [("Builder", pb); ("Operator", po); ("Bridge", pr)]
       /\ 99 <= pb + po + pr <= 101.
Proof.
  intros Hs Hhit. unfold analyze_archetype.
  rewrite after_shift_value by assumption.
  set (nb := Z.of_nat (hits BUILDER_VERBS text)) in *.
  set (no := Z.of_nat (hits OPERATOR_VERBS text)) in *.
  set (nr := Z.of_nat (hits BRIDGE_VERBS text)) in *.
  assert (0 <= nb /\ 0 <= no /\ 0 <= nr /\ 0 < nb + no + nr)
    as (Hb & Ho & Hr & Hpos) by (subst nb no nr; lia).
  set (sb := 10 * nb).
  set (so := if is_executive text then 8 * no else 10 * no).
  set (sr := (if is_commercial text then 15 * nr else 10 * nr)
             + (if is_executive text then 2 * no else 0)).
  assert (0 <= sb /\ 0 <= so /\ 0 <= sr /\ 1 < sb + so + sr)
    as (Hsb & Hso & Hsr & Ht).
  { subst sb so sr.
    destruct (is_executive text), (is_commercial text); lia. }
  unfold finish. cbn [builder_score operator_score bridge_score].
  destruct (Z.eqb_spec (sb + so + sr) 0) as [E|_]; [lia|].
  split.
  - unfold sentinel. intros E. injection E as _ _ _ E. lia.
  - destruct (percentages_sum sb so sr Hsb Hso Hsr ltac:(lia))
      as (pb & po & pr & Eb & Eo & Er & Hsum).
    unfold get_archetype_percentages. cbn [Builder Operator Bridge Total].
    rewrite Eb, Eo, Er.
    destruct (sorted_desc_three ("Builder", pb) ("Operator", po) ("Bridge", pr))
      as (x & y & z & ->).
    eexists; exists pb, po, pr. split; [reflexivity|]. split; [reflexivity|].
    exact Hsum.
Qed.

Lemma percentages_sum_99_to_101_witness :
  short_text "Build, run, sell."
  /\ (0 < hits BUILDER_VERBS "Build, run, sell."
          + hits OPERATOR_VERBS "Build, run, sell."
          + hits BRIDGE_VERBS "Build, run, sell.")%nat
  /\ exists r,
       get_archetype_percentages (analyze_archetype "Build, run, sell.") = Ok r
       /\ pcts r = [("Builder", 33); ("Operator", 33); ("Bridge", 33)].
Proof.
  assert (S1 : short_text "Build, run, sell.") by reflexivity.
  assert (H1 : (0 < hits BUILDER_VERBS "Build, run, sell."
                   + hits OPERATOR_VERBS "Build, run, sell."
                   + hits BRIDGE_VERBS "Build, run, sell.")%nat)
    by (vm_compute; lia).
  split; [exact S1|]. split; [exact H1|].
  destruct (percentages_sum_99_to_101 _ S1 H1)
    as (_ & r & pb & po & pr & Hres & Ep & _).
  exists r. split; [exact Hres|].
  assert (E : get_archetype_percentages (analyze_archetype "Build, run, sell.")
              = Ok {| pcts := [("Builder", 33); ("Operator", 33); ("Bridge", 33)];
                      sorted_pcts :=
                        [("Builder", 33); ("Operator", 33); ("Bridge", 33)];
                      is_hybrid := true |})
    by (vm_compute; reflexivity).
  rewrite E in Hres. injection Hres as <-. reflexivity.
Defined.

(** * Further properties of the code *)

(** ** The scorer *)

Lemma lower_char_idem (c : ascii) : lower_char (lower_char c) = lower_char c.
Proof.
  destruct c as [b0 b1 b2 b3 b4 b5 b6 b7].
  destruct b0, b1, b2, b3, b4, b5, b6, b7; reflexivity.
Qed.

Lemma lower_idem (s : string) : lower (lower s) = lower s.
Proof.
  induction s as [|c s IH]; simpl; [reflexivity|].
  now rewrite lower_char_idem, IH.
Qed.

Lemma analyze_archetype_lower_eq (a b : string) :
  lower a = lower b -> analyze_archetype a = analyze_archetype b.
Proof.
  intros H.
  unfold analyze_archetype, after_shift, after_boost, is_executive,
    is_commercial, base_scores.
  now rewrite H.
Qed.

(** X1.  Scoring ignores the letter case: two texts with the same
    lower-cased form get the same score set, and so does a text and its
    lower-cased form. *)
Theorem scoring_ignores_case (a b : string) :
  (lower a = lower b -> analyze_archetype a = analyze_archetype b)
  /\ analyze_archetype (lower a) = analyze_archetype a.
Proof.
  split.
  - apply analyze_archetype_lower_eq.
  - apply analyze_archetype_lower_eq, lower_idem.
Qed.

Lemma scoring_ignores_case_witness :
  lower "BUILD and Sell; VP Sales" = lower "build AND sell; vp sales"
  /\ analyze_archetype "BUILD and Sell; VP Sales"
     = analyze_archetype "build AND sell; vp sales".
Proof.
  split; [reflexivity|].
  exact (proj1 (scoring_ignores_case "BUILD and Sell; VP Sales"
                  "build AND sell; vp sales") eq_refl).
Defined.

(** X2.  The score set of a text of fewer than [2 ^ 48] characters: no
    score is negative, none exceeds the total, the total is at least 1, and
    it is the sum of the three scores unless the result is the sentinel. *)
Theorem score_set_invariant (text : string) :
  short_text text ->
  let s := analyze_archetype text in
  0 <= Builder s <= Total s
  /\ 0 <= Operator s <= Total s
  /\ 0 <= Bridge s <= Total s
  /\ 1 <= Total s
  /\ (s = sentinel \/ Total s = Builder s + Operator s + Bridge s).
Proof.
  intros Hs s. subst s. unfold analyze_archetype.
  rewrite after_shift_value by assumption.
  set (nb := Z.of_nat (hits BUILDER_VERBS text)).
  set (no := Z.of_nat (hits OPERATOR_VERBS text)).
  set (nr := Z.of_nat (hits BRIDGE_VERBS text)).
  assert (0 <= nb /\ 0 <= no /\ 0 <= nr) as (Hb & Ho & Hr)
    by (subst nb no nr; lia).
  unfold finish. cbn [builder_score operator_score bridge_score].
  destruct (is_commercial text), (is_executive text);
    match goal with |- context [?t =? 0] => destruct (Z.eqb_spec t 0) end;
    cbn [Builder Operator Bridge Total];
    repeat split; try lia; try (now left); now right.
Qed.

Lemma score_set_invariant_witness :
  short_text "Director of sales: manage accounts, sell, build"
  /\ analyze_archetype "Director of sales: manage accounts, sell, build"
     = {| Builder := 10; Operator := 8; Bridge := 17; Total := 35 |}
  /\ 1 <= Total (analyze_archetype
                   "Director of sales: manage accounts, sell, build").
Proof.
  assert (S1 : short_text "Director of sales: manage accounts, sell, build")
    by reflexivity.
  split; [exact S1|]. split; [vm_compute; reflexivity|].
  exact (proj1 (proj2 (proj2 (proj2 (score_set_invariant _ S1))))).
Defined.

(** X3.  The executive shift moves points from Operator to Bridge and
    leaves their sum alone: the total of a text is the Builder and Operator
    base scores plus the Bridge score after the commercial boost, whether an
    executive phrase occurs or not (and 1 when that sum is 0). *)
Theorem executive_shift_conserves_total (text : string) :
  operator_score (after_shift text) + bridge_score (after_shift text)
  = operator_score (after_boost text) + bridge_score (after_boost text)
  /\ Total (analyze_archetype text)
     = (let sum := builder_score (base_scores text)
                   + operator_score (base_scores text)
                   + bridge_score (after_boost text) in
        if sum =? 0 then 1 else sum).
Proof.
  split.
  - unfold after_shift, executive_shift.
    destruct (is_executive text);
      cbn [operator_score bridge_score]; lia.
  - unfold analyze_archetype, finish. rewrite after_shift_total.
    cbv zeta. destruct (_ =? 0); reflexivity.
Qed.

(** Tokens are substrings of the text. *)
Lemma Substring_trans (k w s : string) :
  Substring k w -> Substring w s -> Substring k s.
Proof.
  intros (a & b & ->) (c & d & ->).
  exists (c ++ a), (b ++ d). now rewrite !append_assoc.
Qed.

Lemma Tokenised_substring (p : ascii -> bool) (s : string) (ts : list string) :
  Tokenised p s ts -> forall w, In w ts -> Substring w s.
Proof.
  induction 1 as [sep Hsep|sep w rest ts Hsep Hw Hall Hrest _ IH];
    intros w' Hin; [contradiction|].
  destruct Hin as [<-|Hin].
  - now exists sep, rest.
  - destruct (IH w' Hin) as (a & b & ->).
    exists (sep ++ w ++ a), b. now rewrite !append_assoc.
Qed.

Lemma findall_words_substring (s w : string) :
  In w (findall_words s) -> Substring w s.
Proof. apply Tokenised_substring with (p := is_word), Tokenised_runs. Qed.

(** X4.  Context phrases are looked up as raw substrings, so a token that
    holds a commercial phrase makes the text commercial.  The keywords
    [program], [prototype], [produce], [process], [prospect], [present] and
    [represent] hold the phrase [pr]: a text with one of them as a token
    always gets the commercial boost, and for a text of fewer than [2 ^ 48]
    characters the Bridge score is then 15 per Bridge hit. *)
Theorem token_with_phrase_is_commercial (text w : string) :
  In w (findall_words (lower text)) ->
  any_in SALES_KEYWORDS w = true ->
  is_commercial text = true
  /\ (short_text text ->
      bridge_score (after_boost text)
      = 15 * Z.of_nat (hits BRIDGE_VERBS text))
  /\ filter (fun k => any_in SALES_KEYWORDS k)
       (BUILDER_VERBS ++ OPERATOR_VERBS ++ BRIDGE_VERBS)%list
     = ["program"; "prototype"; "produce"; "process"; "prospect"; "present";
        "represent"].
Proof.
  intros Hw Hk.
  assert (Hc : is_commercial text = true).
  { unfold is_commercial, any_in in *. apply existsb_exists in Hk.
    destruct Hk as (k & Hin & Hk). apply existsb_exists. exists k.
    split; [assumption|]. apply contains_iff.
    apply Substring_trans with w; [now apply contains_iff|].
    now apply findall_words_substring. }
  split; [exact Hc|]. split; [|vm_compute; reflexivity].
  intros Hs. rewrite after_boost_value by assumption.
  cbn [bridge_score]. now rewrite Hc.
Qed.

Lemma token_with_phrase_is_commercial_witness :
  In "present" (findall_words (lower "We present results."))
  /\ any_in SALES_KEYWORDS "present" = true
  /\ is_commercial "We present results." = true
  /\ bridge_score (after_boost "We present results.") = 15.
Proof.
  assert (Hw : In "present" (findall_words (lower "We present results.")))
    by (apply mem_iff; reflexivity).
  assert (Hs : short_text "We present results.") by reflexivity.
  split; [exact Hw|]. split; [reflexivity|].
  destruct (token_with_phrase_is_commercial "We present results." "present"
              Hw eq_refl) as (Hc & Hb & _).
  split; [exact Hc|]. exact (Hb Hs).
Defined.

(** X5.  Base scores add up over a concatenation as soon as no word
    crosses the seam (the first part does not end, or the second does not
    start, with a word character). *)
Theorem base_scores_additive (a b : string) :
  ends_with is_word a = false \/ starts_with is_word b = false ->
  builder_score (base_scores (a ++ b))
  = builder_score (base_scores a) + builder_score (base_scores b)
  /\ operator_score (base_scores (a ++ b))
     = operator_score (base_scores a) + operator_score (base_scores b)
  /\ bridge_score (base_scores (a ++ b))
     = bridge_score (base_scores a) + bridge_score (base_scores b).
Proof.
  intros H. unfold base_scores, findall_words.
  cbn [builder_score operator_score bridge_score].
  rewrite lower_app, runs_app, !sum10_app; [repeat split|].
  destruct H as [H|H]; [left; now rewrite ends_with_lower|
                        right; now rewrite starts_with_lower].
Qed.

Lemma base_scores_additive_witness :
  ends_with is_word "We build. " = false
  /\ builder_score (base_scores ("We build. " ++ "They design and code"))
     = builder_score (base_scores "We build. ")
       + builder_score (base_scores "They design and code").
Proof.
  split; [reflexivity|].
  exact (proj1 (base_scores_additive "We build. " "They design and code"
                  (or_introl eq_refl))).
Defined.

(** The three lexicons are pairwise disjoint. *)
Lemma lexicons_disjoint (w : string) :
  (mem w BUILDER_VERBS = true -> mem w OPERATOR_VERBS = false
                                 /\ mem w BRIDGE_VERBS = false)
  /\ (mem w OPERATOR_VERBS = true -> mem w BRIDGE_VERBS = false).
Proof.
  assert (F1 : forallb (fun k => negb (mem k OPERATOR_VERBS)
                                 && negb (mem k BRIDGE_VERBS))%bool
                 BUILDER_VERBS = true) by (vm_compute; reflexivity).
  assert (F2 : forallb (fun k => negb (mem k BRIDGE_VERBS)) OPERATOR_VERBS
               = true) by (vm_compute; reflexivity).
  rewrite forallb_forall in F1, F2. split; intros H; apply mem_iff in H.
  - specialize (F1 w H). apply andb_prop in F1 as [F1 F1'].
    now rewrite negb_true_iff in F1, F1'.
  - specialize (F2 w H). now rewrite negb_true_iff in F2.
Qed.

(** X6.  No token scores in two categories: the three numbers of hits of a
    text add up to at most its number of tokens, and the three base scores
    to at most 10 per token. *)
Theorem one_category_per_token (text : string) :
  (hits BUILDER_VERBS text + hits OPERATOR_VERBS text
   + hits BRIDGE_VERBS text
   <= List.length (findall_words (lower text)))%nat
  /\ builder_score (base_scores text) + operator_score (base_scores text)
     + bridge_score (base_scores text)
     <= 10 * Z.of_nat (List.length (findall_words (lower text))).
Proof.
  assert (H : (hits BUILDER_VERBS text + hits OPERATOR_VERBS text
               + hits BRIDGE_VERBS text
               <= List.length (findall_words (lower text)))%nat).
  { unfold hits. induction (findall_words (lower text)) as [|w ws IH];
      [simpl; lia|].
    cbn [filter List.length].
    destruct (lexicons_disjoint w) as [D1 D2].
    destruct (mem w BUILDER_VERBS) eqn:Eb.
    - destruct (D1 eq_refl) as [-> ->]. cbn [List.length]. lia.
    - destruct (mem w OPERATOR_VERBS) eqn:Eo.
      + rewrite (D2 eq_refl). cbn [List.length]. lia.
      + destruct (mem w BRIDGE_VERBS); cbn [List.length]; lia. }
  split; [exact H|].
  rewrite base_scores_hits. cbn [builder_score operator_score bridge_score].
  lia.
Qed.

(** ** The resolver *)

Lemma percentage_bounds (s t : Z) :
  0 <= s <= t -> 0 < t -> exists p, percentage s t = Ok p /\ 0 <= p <= 100.
Proof.
  intros Hs Ht.
  destruct (percentage_error s t Hs Ht) as (p & Ep & Herr).
  exists p. split; [exact Ep|].
  assert (P52 : 2 ^ 52 = 4503599627370496) by reflexivity.
  assert (P51 : 2 ^ 51 = 2251799813685248) by reflexivity.
  rewrite P52, P51 in Herr. split.
  - destruct (Z_le_gt_dec 0 p) as [|Hneg]; [assumption|exfalso].
    assert (t <= 100 * s - t * p) by nia. lia.
  - destruct (Z_le_gt_dec p 100) as [|Hbig]; [assumption|exfalso].
    assert (t <= t * p - 100 * s) by nia. lia.
Qed.

(** The shape of a result: three ranked items in descending order, a
    permutation of the three percentages. *)
Lemma resolved_shape (scores : ScoreSet) (r : Resolved) :
  get_archetype_percentages scores = Ok r ->
  exists p0 p1 p2,
    sorted_pcts r = [p0; p1; p2]
    /\ snd p1 <= snd p0 /\ snd p2 <= snd p1
    /\ Permutation (pcts r) [p0; p1; p2]
    /\ map fst (pcts r) = ["Builder"; "Operator"; "Bridge"].
Proof.
  intros H.
  destruct (resolved_inv scores r H) as (pb & po & pr & _ & _ & _ & Ep & Es & _).
  pose proof (sorted_desc_descending (pcts r)) as Hd.
  pose proof (sorted_desc_perm (pcts r)) as Hp.
  rewrite <- Es in Hd, Hp.
  destruct (sorted_desc_three ("Builder", pb) ("Operator", po) ("Bridge", pr))
    as (p0 & p1 & p2 & E3).
  rewrite <- Ep, <- Es in E3. rewrite E3 in Hd, Hp.
  exists p0, p1, p2. split; [exact E3|].
  unfold descending in Hd.
  inversion Hd as [|? ? Hd' F0]; subst.
  inversion Hd' as [|? ? _ F1]; subst.
  inversion F0; subst. inversion F1; subst.
  repeat split; try assumption. now rewrite Ep.
Qed.

(** X7.  For a score set with scores between 0 and a positive total the
    resolver returns, and every percentage, in the dict and in the ranked
    list, is an integer from 0 to 100. *)
Theorem percentages_within_0_100 (scores : ScoreSet) :
  0 <= Builder scores <= Total scores ->
  0 <= Operator scores <= Total scores ->
  0 <= Bridge scores <= Total scores ->
  0 < Total scores ->
  exists r,
    get_archetype_percentages scores = Ok r
    /\ Forall (fun x => 0 <= snd x <= 100) (pcts r)
    /\ Forall (fun x => 0 <= snd x <= 100) (sorted_pcts r)
    /\ 0 <= gap r <= 100.
Proof.
  intros Hb Ho Hr Ht.
  destruct (percentage_bounds _ _ Hb Ht) as (pb & Eb & Bb).
  destruct (percentage_bounds _ _ Ho Ht) as (po & Eo & Bo).
  destruct (percentage_bounds _ _ Hr Ht) as (pr & Er & Br).
  destruct (resolved_defined scores ltac:(lia)) as [r Hres].
  destruct (resolved_inv scores r Hres)
    as (pb' & po' & pr' & Eb' & Eo' & Er' & Ep & _).
  rewrite Eb in Eb'. rewrite Eo in Eo'. rewrite Er in Er'.
  injection Eb' as <-. injection Eo' as <-. injection Er' as <-.
  destruct (resolved_shape scores r Hres) as (p0 & p1 & p2 & Es & H10 & H21 & Hp & _).
  assert (Fp : Forall (fun x => 0 <= snd x <= 100) (pcts r)).
  { rewrite Ep. repeat (apply Forall_cons; [cbn [snd]; lia|]).
    apply Forall_nil. }
  assert (Fs : Forall (fun x => 0 <= snd x <= 100) (sorted_pcts r)).
  { rewrite Es. eapply Permutation_Forall; [exact Hp|exact Fp]. }
  exists r. split; [exact Hres|]. split; [exact Fp|]. split; [exact Fs|].
  unfold gap. rewrite Es in *. inversion Fs as [|? ? F0 Fs']; subst.
  inversion Fs' as [|? ? F1 _]; subst. lia.
Qed.

Lemma percentages_within_0_100_witness :
  exists r,
    get_archetype_percentages
      {| Builder := 10; Operator := 0; Bridge := 20; Total := 30 |} = Ok r
    /\ 0 <= gap r <= 100.
Proof.
  destruct (percentages_within_0_100
              {| Builder := 10; Operator := 0; Bridge := 20; Total := 30 |})
    as (r & Hres & _ & _ & Hg);
    try (cbn [Builder Operator Bridge Total]; lia).
  exists r. split; assumption.
Defined.

(** The names of a ranked list are the three categories, each once. *)
Lemma resolved_names (scores : ScoreSet) (r : Resolved) :
  get_archetype_percentages scores = Ok r ->
  exists p0 p1 p2,
    sorted_pcts r = [p0; p1; p2]
    /\ fst p0 <> fst p1
    /\ snd p1 <= snd p0.
Proof.
  intros H.
  destruct (resolved_shape scores r H) as (p0 & p1 & p2 & Es & H10 & H21 & Hp & Ef).
  exists p0, p1, p2. split; [exact Es|]. split; [|exact H10].
  assert (Hn : Permutation ["Builder"; "Operator"; "Bridge"]
                 [fst p0; fst p1; fst p2]).
  { rewrite <- Ef. exact (Permutation_map fst Hp). }
  assert (Hd : NoDup [fst p0; fst p1; fst p2]).
  { eapply Permutation_NoDup; [exact Hn|].
    repeat constructor; simpl; intuition discriminate. }
  inversion Hd as [|? ? N0 _]; subst. simpl in N0. intuition congruence.
Qed.

(** X8.  Whatever the scores, a result of the resolver ranks exactly three
    items, one for each of Builder, Operator and Bridge: the primary and the
    secondary category differ, the third subscript of the ranked list
    exists, and the gap is not negative. *)
Theorem ranked_list_shape (scores : ScoreSet) (r : Resolved) :
  get_archetype_percentages scores = Ok r ->
  exists p0 p1 p2,
    sorted_pcts r = [p0; p1; p2]
    /\ Permutation [fst p0; fst p1; fst p2] ["Builder"; "Operator"; "Bridge"]
    /\ fst p0 <> fst p1 /\ fst p0 <> fst p2 /\ fst p1 <> fst p2
    /\ snd p2 <= snd p1 <= snd p0
    /\ 0 <= gap r.
Proof.
  intros H.
  destruct (resolved_shape scores r H) as (p0 & p1 & p2 & Es & H10 & H21 & Hp & Ef).
  exists p0, p1, p2. split; [exact Es|].
  assert (Hn : Permutation [fst p0; fst p1; fst p2]
                 ["Builder"; "Operator"; "Bridge"]).
  { rewrite <- Ef. symmetry. exact (Permutation_map fst Hp). }
  assert (Hd : NoDup [fst p0; fst p1; fst p2]).
  { eapply Permutation_NoDup; [symmetry; exact Hn|].
    repeat constructor; simpl; intuition discriminate. }
  inversion Hd as [|? ? N0 Hd']; subst. inversion Hd' as [|? ? N1 _]; subst.
  split; [exact Hn|]. simpl in N0, N1.
  repeat split; try lia; try (intros E; intuition congruence).
  unfold gap. rewrite Es. lia.
Qed.

Lemma ranked_list_shape_witness :
  exists p0 p1 p2,
    sorted_pcts {| pcts := [("Builder", 12); ("Operator", 25); ("Bridge", 62)];
                   sorted_pcts :=
                     [("Bridge", 62); ("Operator", 25); ("Builder", 12)];
                   is_hybrid := false |} = [p0; p1; p2]
    /\ fst p0 <> fst p1.
Proof.
  assert (E : get_archetype_percentages
                {| Builder := 10; Operator := 20; Bridge := 50; Total := 80 |}
              = Ok {| pcts := [("Builder", 12); ("Operator", 25); ("Bridge", 62)];
                      sorted_pcts :=
                        [("Bridge", 62); ("Operator", 25); ("Builder", 12)];
                      is_hybrid := false |})
    by (vm_compute; reflexivity).
  destruct (ranked_list_shape _ _ E) as (p0 & p1 & p2 & Es & _ & Hne & _).
  exists p0, p1, p2. split; assumption.
Defined.

(** X9.  For non-negative scores with a positive sum as total, the primary
    percentage is at least 33, and at least 47 when the result is not a
    hybrid: a dominant archetype always holds close to half of the signal. *)
Theorem dominant_primary_at_least_47 (sb so sr : Z) (r : Resolved) :
  0 <= sb -> 0 <= so -> 0 <= sr -> 0 < sb + so + sr ->
  get_archetype_percentages
    {| Builder := sb; Operator := so; Bridge := sr; Total := sb + so + sr |}
  = Ok r ->
  exists primary rest,
    sorted_pcts r = primary :: rest
    /\ 33 <= snd primary
    /\ (is_hybrid r = false -> 47 <= snd primary).
Proof.
  intros Hb Ho Hr Ht H.
  destruct (percentages_sum sb so sr Hb Ho Hr Ht)
    as (pb & po & pr & Eb & Eo & Er & Hsum).
  destruct (resolved_inv _ r H)
    as (pb' & po' & pr' & Eb' & Eo' & Er' & Ep & _ & Eh).
  cbn [Builder Operator Bridge Total] in *.
  rewrite Eb in Eb'. rewrite Eo in Eo'. rewrite Er in Er'.
  injection Eb' as <-. injection Eo' as <-. injection Er' as <-.
  destruct (resolved_shape _ r H) as (p0 & p1 & p2 & Es & H10 & H21 & Hp & _).
  assert (Hs : snd p0 + snd p1 + snd p2 = pb + po + pr).
  { rewrite Ep in Hp.
    pose proof (Permutation_map snd Hp) as Hm. cbn [map snd] in Hm.
    assert (G : forall l l' : list Z,
               Permutation l l' ->
               fold_right Z.add 0 l = fold_right Z.add 0 l').
    { induction 1; cbn [fold_right]; lia. }
    apply G in Hm. cbn [fold_right] in Hm. lia. }
  exists p0, [p1; p2]. split; [exact Es|]. split; [lia|].
  intros Hh. rewrite Eh in Hh. unfold gap in Hh. rewrite Es in Hh.
  apply Z.ltb_ge in Hh. lia.
Qed.

Lemma dominant_primary_at_least_47_witness :
  exists primary rest,
    sorted_pcts {| pcts := [("Builder", 47); ("Operator", 27); ("Bridge", 27)];
                   sorted_pcts :=
                     [("Builder", 47); ("Operator", 27); ("Bridge", 27)];
                   is_hybrid := false |} = primary :: rest
    /\ 47 <= snd primary.
Proof.
  assert (E : get_archetype_percentages
                {| Builder := 70; Operator := 40; Bridge := 40;
                   Total := 70 + 40 + 40 |}
              = Ok {| pcts := [("Builder", 47); ("Operator", 27); ("Bridge", 27)];
                      sorted_pcts :=
                        [("Builder", 47); ("Operator", 27); ("Bridge", 27)];
                      is_hybrid := false |})
    by (vm_compute; reflexivity).
  destruct (dominant_primary_at_least_47 70 40 40 _ ltac:(lia) ltac:(lia)
              ltac:(lia) ltac:(lia) E) as (primary & rest & Es & _ & H47).
  exists primary, rest. split; [exact Es|]. exact (H47 eq_refl).
Defined.

(** ** The log row and the page header *)

Lemma lookup_inv (d : list (string * Z)) (k : string) :
  (exists v, Log.lookup d k = inr v /\ In k (map fst d))
  \/ (Log.lookup d k = inl Log.KeyError /\ ~ In k (map fst d)).
Proof.
  induction d as [|[k' v] d IH]; [right; split; [reflexivity|intros []]|].
  cbn [Log.lookup map fst]. destruct (String.eqb_spec k k') as [->|Hne].
  - left. exists v. split; [reflexivity|now left].
  - destruct IH as [(v' & E & Hin)|(E & Hn)].
    + left. exists v'. split; [exact E|now right].
    + right. split; [exact E|]. intros [H|H]; [congruence|contradiction].
Qed.

Lemma take_length (n : nat) (s : string) :
  String.length (take n s) = Nat.min n (String.length s).
Proof.
  revert s. induction n as [|n IH]; intros [|c s]; simpl; try reflexivity.
  now rewrite IH.
Qed.

Lemma take_prefix (n : nat) (s : string) : exists rest, s = take n s ++ rest.
Proof.
  revert s. induction n as [|n IH]; intros s; [now exists s|].
  destruct s as [|c s]; [now exists EmptyString|].
  destruct (IH s) as [rest E]. exists rest. simpl. now rewrite <- E.
Qed.

Lemma take_all (n : nat) (s : string) :
  (String.length s <= n)%nat -> take n s = s.
Proof.
  revert s. induction n as [|n IH]; intros [|c s] H; simpl in *;
    try reflexivity; try lia.
  rewrite IH; [reflexivity|lia].
Qed.

Lemma append_length (a b : string) :
  String.length (a ++ b) = (String.length a + String.length b)%nat.
Proof. induction a as [|c a IH]; simpl; [reflexivity|now rewrite IH]. Qed.

(** X10.  The row logged for a result of the resolver is always built (no
    subscript fails).  Its gap is the gap of the result and is not negative;
    its label joins the primary and the secondary category, which differ,
    when the gap is below 20 and is the primary category alone otherwise;
    its three scores are the percentages of Builder, Operator and Bridge;
    the page header shows the same label. *)
Theorem log_row_of_result
    (timestamp session_id text audit_result : string)
    (scores : ScoreSet) (r : Resolved) :
  get_archetype_percentages scores = Ok r ->
  exists row,
    Log.new_row timestamp session_id text (pcts r) (sorted_pcts r)
      audit_result (is_hybrid r) = inr row
    /\ Log.Gap_Delta row = gap r
    /\ 0 <= Log.Gap_Delta row
    /\ Log.Archetype_Primary row <> Log.Archetype_Secondary row
    /\ (Log.Gap_Delta row < 20 ->
        Log.Archetype_Label row
        = Log.Archetype_Primary row ++ " + " ++ Log.Archetype_Secondary row)
    /\ (20 <= Log.Gap_Delta row ->
        Log.Archetype_Label row = Log.Archetype_Primary row)
    /\ [("Builder", Log.Score_Builder row);
        ("Operator", Log.Score_Operator row);
        ("Bridge", Log.Score_Bridge row)] = pcts r
    /\ Log.header (sorted_pcts r) (is_hybrid r)
       = inr (Log.Archetype_Label row).
Proof.
  intros H.
  destruct (resolved_inv scores r H) as (pb & po & pr & _ & _ & _ & Ep & _ & Eh).
  destruct (resolved_names scores r H) as (p0 & p1 & p2 & Es & Hne & Hle).
  unfold Log.new_row, Log.header, Log.item, gap in *.
  rewrite Es, Ep in *. cbn [nth_error Log.lookup String.eqb].
  eexists. split; [reflexivity|].
  cbn [Log.Gap_Delta Log.Archetype_Primary Log.Archetype_Secondary
       Log.Archetype_Label Log.Score_Builder Log.Score_Operator
       Log.Score_Bridge fst snd].
  rewrite Eh. unfold Log.label.
  repeat split; try assumption; try lia.
  - intros Hlt. apply Z.ltb_lt in Hlt. now rewrite Hlt.
  - intros Hge. apply Z.ltb_ge in Hge. now rewrite Hge.
Qed.

Lemma log_row_of_result_witness :
  exists row,
    Log.new_row "2025-01-01 00:00:00" "s1" "I build and build"
      [("Builder", 100); ("Operator", 0); ("Bridge", 0)]
      [("Builder", 100); ("Operator", 0); ("Bridge", 0)]
      "report" false = inr row
    /\ Log.Gap_Delta row = 100
    /\ Log.Archetype_Label row = "Builder".
Proof.
  assert (E : get_archetype_percentages
                {| Builder := 20; Operator := 0; Bridge := 0; Total := 20 |}
              = Ok {| pcts := [("Builder", 100); ("Operator", 0); ("Bridge", 0)];
                      sorted_pcts :=
                        [("Builder", 100); ("Operator", 0); ("Bridge", 0)];
                      is_hybrid := false |})
    by (vm_compute; reflexivity).
  destruct (log_row_of_result "2025-01-01 00:00:00" "s1" "I build and build"
              "report" _ _ E) as (row & Hrow & Hgap & _ & _ & _ & Hlab & _).
  cbn [pcts sorted_pcts is_hybrid] in Hrow.
  exists row. split; [exact Hrow|].
  assert (G : Log.Gap_Delta row = 100) by (rewrite Hgap; reflexivity).
  split; [exact G|]. rewrite (Hlab ltac:(lia)).
  injection Hrow as <-. reflexivity.
Defined.

(** X11.  When building the row fails: with [IndexError] exactly when the
    ranked list has fewer than two items, and with [KeyError] exactly when
    it has two and one of the keys Builder, Operator and Bridge is missing
    from the percentages. *)
Theorem log_row_errors
    (timestamp session_id text audit_result : string)
    (pcts sorted_pcts : list (string * Z)) (is_hybrid : bool) :
  let row := Log.new_row timestamp session_id text pcts sorted_pcts
               audit_result is_hybrid in
  (row = inl Log.IndexError <-> (List.length sorted_pcts < 2)%nat)
  /\ (row = inl Log.KeyError <->
      (2 <= List.length sorted_pcts)%nat
      /\ ~ (In "Builder" (map fst pcts) /\ In "Operator" (map fst pcts)
            /\ In "Bridge" (map fst pcts))).
Proof.
  intros row. subst row. unfold Log.new_row, Log.item.
  destruct sorted_pcts as [|p0 [|p1 rest]]; cbn [nth_error List.length].
  - split; split; try (intros; lia); try discriminate; reflexivity.
  - split; split; try (intros; lia); try discriminate; reflexivity.
  - destruct (lookup_inv pcts "Builder") as [(vb & -> & Hb)|(-> & Hb)];
      [|split; split; try discriminate; try (intros; lia);
        [intros _; split; [lia|tauto]|reflexivity]].
    destruct (lookup_inv pcts "Operator") as [(vo & -> & Ho)|(-> & Ho)];
      [|split; split; try discriminate; try (intros; lia);
        [intros _; split; [lia|tauto]|reflexivity]].
    destruct (lookup_inv pcts "Bridge") as [(vr & -> & Hr)|(-> & Hr)];
      [|split; split; try discriminate; try (intros; lia);
        [intros _; split; [lia|tauto]|reflexivity]].
    split; split; try discriminate; try (intros; lia).
    intros [_ Hn]. exfalso. apply Hn. tauto.
Qed.

(** X12.  The snippet of the resume stored in a row is the first 500
    characters of the text followed by three dots: it holds the whole text
    when the text has at most 500 characters, and never more than 503
    characters. *)
Theorem input_redacted_snippet
    (timestamp session_id text audit_result : string)
    (pcts sorted_pcts : list (string * Z)) (is_hybrid : bool) (row : Log.Row) :
  Log.new_row timestamp session_id text pcts sorted_pcts audit_result is_hybrid
  = inr row ->
  (exists kept rest,
      Log.Input_Redacted row = kept ++ "..." /\ text = kept ++ rest
      /\ String.length kept = Nat.min 500 (String.length text))
  /\ (String.length (Log.Input_Redacted row) <= 503)%nat
  /\ ((String.length text <= 500)%nat ->
      Log.Input_Redacted row = text ++ "...")
  /\ Log.Output_Report row = audit_result.
Proof.
  unfold Log.new_row. intros H.
  pose proof (take_length 500 text) as Hlen.
  pose proof (take_all 500 text) as Hall.
  destruct (take_prefix 500 text) as [rest E].
  remember (take 500 text) as kept eqn:Ek. clear Ek.
  destruct (Log.item sorted_pcts 0); [discriminate|].
  destruct (Log.item sorted_pcts 1); [discriminate|].
  destruct (Log.lookup pcts "Builder"); [discriminate|].
  destruct (Log.lookup pcts "Operator"); [discriminate|].
  destruct (Log.lookup pcts "Bridge"); [discriminate|].
  injection H as <-. cbn [Log.Input_Redacted Log.Output_Report].
  split; [|split; [|split; [|reflexivity]]].
  - exists kept, rest. split; [reflexivity|]. split; assumption.
  - rewrite append_length, Hlen. cbn [String.length]. lia.
  - intros Hle. now rewrite Hall.
Qed.

Lemma input_redacted_snippet_witness :
  Log.Input_Redacted
    {| Log.Timestamp := "t"; Log.Session_ID := "s";
       Log.Archetype_Label := "Builder"; Log.Archetype_Primary := "Builder";
       Log.Archetype_Secondary := "Operator"; Log.Gap_Delta := 100;
       Log.Score_Builder := 100; Log.Score_Operator := 0;
       Log.Score_Bridge := 0; Log.Input_Redacted := "I build...";
       Log.Output_Report := "report" |} = "I build" ++ "...".
Proof.
  refine (proj1 (proj2 (proj2
            (input_redacted_snippet "t" "s" "I build" "report"
               [("Builder", 100); ("Operator", 0); ("Bridge", 0)]
               [("Builder", 100); ("Operator", 0); ("Bridge", 0)]
               false _ eq_refl))) _).
  simpl. lia.
Defined.

(** ** The documents *)

Lemma lower_join (ps : list string) :
  lower (join newline ps) = join newline (map lower ps).
Proof.
  induction ps as [|x ps IH]; [reflexivity|].
  destruct ps as [|y ps]; [reflexivity|].
  change (join newline (x :: y :: ps))
    with (x ++ newline ++ join newline (y :: ps)).
  rewrite !lower_app, IH. reflexivity.
Qed.

(** A phrase without the character [c] does not cross a [c]. *)
Lemma is_prefix_cut (c : ascii) (k a b : string) :
  all_chars (fun x => negb (Ascii.eqb x c)) k = true ->
  is_prefix k (a ++ String c b) = is_prefix k a.
Proof.
  revert a. induction k as [|x k IH]; intros a Hk; [now destruct a|].
  cbn [all_chars] in Hk. apply andb_prop in Hk as [Hx Hk].
  destruct a as [|h a]; simpl.
  - apply negb_true_iff in Hx. now rewrite Hx.
  - now rewrite IH.
Qed.

Lemma contains_cut (c : ascii) (k a b : string) :
  all_chars (fun x => negb (Ascii.eqb x c)) k = true ->
  contains k (a ++ String c b) = (contains k a || contains k b)%bool.
Proof.
  intros Hk. induction a as [|h a IH].
  - change (EmptyString ++ String c b) with (String c b).
    cbn [contains].
    now rewrite <- (is_prefix_cut c k EmptyString b Hk).
  - change (String h a ++ String c b) with (String h (a ++ String c b)).
    cbn [contains]. rewrite IH.
    change (String h (a ++ String c b)) with (String h a ++ String c b).
    rewrite is_prefix_cut by assumption. now rewrite orb_assoc.
Qed.

Lemma contains_join (k : string) (qs : list string) :
  k <> EmptyString ->
  all_chars (fun x => negb (Ascii.eqb x (ascii_of_nat 10))) k = true ->
  contains k (join newline qs) = existsb (contains k) qs.
Proof.
  intros Hne Hk. induction qs as [|x qs IH].
  - destruct k; [contradiction|reflexivity].
  - destruct qs as [|y qs].
    + cbn [join existsb]. now rewrite orb_false_r.
    + change (join newline (x :: y :: qs))
        with (x ++ String (ascii_of_nat 10) (join newline (y :: qs))).
      rewrite contains_cut by assumption. now rewrite IH.
Qed.

Lemma existsb_swap {A B : Type} (f : A -> B -> bool) (l : list A) (m : list B) :
  existsb (fun a => existsb (f a) m) l = existsb (fun b => existsb (fun a => f a b) l) m.
Proof.
  induction m as [|b m IH].
  - cbn [existsb]. induction l as [|a l IHl]; [reflexivity|exact IHl].
  - cbn [existsb]. rewrite <- IH. clear IH.
    induction l as [|a l IHl]; [reflexivity|].
    cbn [existsb]. rewrite IHl.
    destruct (f a b), (existsb (f a) m), (existsb (fun a0 => f a0 b) l);
      reflexivity.
Qed.

Lemma existsb_in_ext {A : Type} (f g : A -> bool) (l : list A) :
  (forall a, In a l -> f a = g a) -> existsb f l = existsb g l.
Proof.
  induction l as [|a l IH]; intros H; [reflexivity|].
  cbn [existsb]. rewrite (H a (or_introl eq_refl)), IH; [reflexivity|].
  intros b Hb. apply H. now right.
Qed.

Lemma existsb_of_map {A B : Type} (g : A -> B) (f : B -> bool) (l : list A) :
  existsb f (map g l) = existsb (fun a => f (g a)) l.
Proof. induction l as [|a l IH]; cbn [map existsb]; [reflexivity|now rewrite IH]. Qed.

Lemma any_in_join (K : list string) (ps : list string) :
  one_line_phrases K = true ->
  any_in K (lower (join newline ps))
  = existsb (fun p => any_in K (lower p)) ps.
Proof.
  intros HK. unfold any_in. rewrite lower_join.
  rewrite (existsb_swap (fun p k => contains k (lower p)) ps K).
  apply existsb_in_ext. intros k Hin.
  unfold one_line_phrases in HK. rewrite forallb_forall in HK.
  specialize (HK k Hin). apply andb_prop in HK as [H1 H2].
  rewrite contains_join; [apply existsb_of_map| |assumption].
  intros ->. discriminate H1.
Qed.

Lemma base_scores_newline (s : string) :
  base_scores (newline ++ s) = base_scores s.
Proof.
  unfold base_scores, findall_words. rewrite lower_app.
  now rewrite (proj2 (runs_app_separator is_word (lower s) (lower newline)
                        eq_refl)).
Qed.

(** X13.  The text of a DOCX document is its paragraphs joined by line
    feeds, which no word and no context phrase crosses: each base score of
    the document is the sum of the base scores of its paragraphs, and the
    document is commercial, respectively executive, exactly when one of its
    paragraphs is. *)
Theorem docx_scores_by_paragraph (paragraphs : list string) :
  let text := extract_text_from_docx paragraphs in
  builder_score (base_scores text)
  = total_of (map (fun p => builder_score (base_scores p)) paragraphs)
  /\ operator_score (base_scores text)
     = total_of (map (fun p => operator_score (base_scores p)) paragraphs)
  /\ bridge_score (base_scores text)
     = total_of (map (fun p => bridge_score (base_scores p)) paragraphs)
  /\ is_commercial text = existsb is_commercial paragraphs
  /\ is_executive text = existsb is_executive paragraphs.
Proof.
  cbv zeta. unfold extract_text_from_docx.
  split; [|split; [|split; [|split]]].
  4: { unfold is_commercial. apply any_in_join. reflexivity. }
  4: { unfold is_executive. apply any_in_join. reflexivity. }
  all: induction paragraphs as [|x ps IH]; [reflexivity|];
    destruct ps as [|y ps];
    [cbn [join map total_of fold_right]; lia|];
    change (join newline (x :: y :: ps))
      with (x ++ newline ++ join newline (y :: ps));
    destruct (base_scores_additive x (newline ++ join newline (y :: ps))
                (or_intror eq_refl)) as (Eb & Eo & Er);
    rewrite base_scores_newline in Eb, Eo, Er;
    change (total_of (map ?f (x :: y :: ps)))
      with (f x + total_of (map f (y :: ps)));
    cbv beta; rewrite <- IH; assumption.
Qed.

Lemma concat_pages (pages : list string) (acc : string) :
  fold_left (fun text page => text ++ page) pages acc
  = acc ++ fold_right append EmptyString pages.
Proof.
  revert acc. induction pages as [|p ps IH]; intros acc; cbn [fold_left fold_right].
  - now rewrite append_nil_r.
  - now rewrite IH, append_assoc.
Qed.

Lemma Substring_app_l (k a b : string) : Substring k a -> Substring k (a ++ b).
Proof.
  intros (x & y & ->). exists x, (y ++ b). now rewrite !append_assoc.
Qed.

Lemma Substring_app_r (k a b : string) : Substring k b -> Substring k (a ++ b).
Proof.
  intros (x & y & ->). exists (a ++ x), y. now rewrite !append_assoc.
Qed.

(** X14.  The text of a PDF document is its pages put end to end with
    nothing between them.  When every page ends outside a word, each base
    score of the document is the sum over its pages; in general a word can
    form across two pages, which adds at most one hit for each seam; and a
    context phrase found in a page is found in the document. *)
Theorem pdf_scores_by_page (L : list string) (pages : list string) :
  let text := extract_text_from_pdf pages in
  let score s := sum10 L (findall_words (lower s)) in
  (Forall (fun p => ends_with is_word p = false) pages ->
   score text = total_of (map score pages))
  /\ score text
     <= total_of (map score pages)
        + 10 * Z.of_nat (Nat.pred (List.length pages))
  /\ (existsb is_commercial pages = true -> is_commercial text = true)
  /\ (existsb is_executive pages = true -> is_executive text = true).
Proof.
  cbv zeta. unfold extract_text_from_pdf. rewrite concat_pages.
  change (EmptyString ++ fold_right append EmptyString pages)
    with (fold_right append EmptyString pages).
  split; [|split; [|split]].
  - induction 1 as [|p ps Hp _ IH]; [reflexivity|].
    cbn [fold_right map total_of]. unfold findall_words in *.
    rewrite lower_app, runs_app, sum10_app
      by (left; now rewrite ends_with_lower).
    fold (total_of (map (fun s => sum10 L (runs is_word (lower s))) ps)).
    now rewrite IH.
  - induction pages as [|p ps IH]; [cbn; lia|].
    destruct ps as [|q ps].
    + cbn [fold_right map total_of List.length Nat.pred].
      rewrite append_nil_r. lia.
    + change (fold_right append EmptyString (p :: q :: ps))
        with (p ++ fold_right append EmptyString (q :: ps)).
      change (total_of (map ?f (p :: q :: ps)))
        with (f p + total_of (map f (q :: ps))).
      cbv beta. unfold findall_words in *. rewrite lower_app.
      pose proof (sum10_runs_app L (lower p)
                    (lower (fold_right append EmptyString (q :: ps)))) as Hj.
      cbn [List.length Nat.pred] in *. lia.
  - unfold is_commercial. intros H. apply existsb_exists in H.
    destruct H as (p & Hin & Hp). apply any_in_iff in Hp.
    apply any_in_iff. destruct Hp as (k & Hk & Hs). exists k.
    split; [exact Hk|]. clear Hk. induction pages as [|q qs IH]; [contradiction|].
    cbn [fold_right]. rewrite lower_app. destruct Hin as [->|Hin].
    + now apply Substring_app_l.
    + apply Substring_app_r. now apply IH.
  - unfold is_executive. intros H. apply existsb_exists in H.
    destruct H as (p & Hin & Hp). apply any_in_iff in Hp.
    apply any_in_iff. destruct Hp as (k & Hk & Hs). exists k.
    split; [exact Hk|]. clear Hk. induction pages as [|q qs IH]; [contradiction|].
    cbn [fold_right]. rewrite lower_app. destruct Hin as [->|Hin].
    + now apply Substring_app_l.
    + apply Substring_app_r. now apply IH.
Qed.

Lemma pdf_scores_by_page_witness :
  Forall (fun p => ends_with is_word p = false)
    ["We build. "; "We design and code. "]
  /\ sum10 BUILDER_VERBS
       (findall_words
          (lower (extract_text_from_pdf ["We build. "; "We design and code. "])))
     = 10 + 20
  /\ sum10 BUILDER_VERBS
       (findall_words (lower (extract_text_from_pdf ["re"; "build"]))) = 0.
Proof.
  assert (F : Forall (fun p => ends_with is_word p = false)
                ["We build. "; "We design and code. "])
    by (repeat constructor).
  split; [exact F|]. split; [|reflexivity].
  exact (proj1 (pdf_scores_by_page BUILDER_VERBS
                  ["We build. "; "We design and code. "]) F).
Defined.

(** ** Percentages only depend on the proportions *)

Lemma pow2_le_frac_shift (e n d M : Z) :
  0 <= M -> 0 <= e + M ->
  pow2_le_frac e n d <-> d * 2 ^ (e + M) <= n * 2 ^ M.
Proof.
  intros HM HeM. unfold pow2_le_frac, B64.scaled.
  pose proof (B64Facts.pow2_pos M HM) as PM.
  destruct (Z.leb_spec 0 e) as [He|He]; cbn [fst snd].
  - rewrite Z.pow_add_r by lia. pose proof (B64Facts.pow2_pos e He).
    rewrite Z.mul_assoc. apply Z.mul_le_mono_pos_r. assumption.
  - assert (EM : 2 ^ M = 2 ^ (e + M) * 2 ^ (- e)).
    { rewrite <- Z.pow_add_r by lia. f_equal. lia. }
    rewrite EM.
    pose proof (B64Facts.pow2_pos (e + M) HeM).
    replace (n * (2 ^ (e + M) * 2 ^ (- e)))
      with (n * 2 ^ (- e) * 2 ^ (e + M)) by ring.
    apply Z.mul_le_mono_pos_r. assumption.
Qed.

Lemma pow2_le_frac_mono (e e' n d : Z) :
  0 < d -> e' <= e -> pow2_le_frac e n d -> pow2_le_frac e' n d.
Proof.
  intros Hd Hle H.
  set (M := Z.abs e + Z.abs e').
  apply (pow2_le_frac_shift e n d M) in H; [|lia|lia].
  apply (pow2_le_frac_shift e' n d M); [lia|lia|].
  assert (2 ^ (e' + M) <= 2 ^ (e + M)) by (apply Z.pow_le_mono_r; lia).
  nia.
Qed.

Lemma ilog2_spec (n d : Z) :
  0 < n -> 0 < d ->
  pow2_le_frac (B64.ilog2 n d) n d /\ ~ pow2_le_frac (B64.ilog2 n d + 1) n d.
Proof.
  intros Hn Hd.
  pose proof (Z.log2_spec n Hn) as [Ln Un].
  pose proof (Z.log2_spec d Hd) as [Ld Ud].
  pose proof (Z.log2_nonneg n) as Nn. pose proof (Z.log2_nonneg d) as Nd.
  set (ln := Z.log2 n) in *. set (ld := Z.log2 d) in *.
  assert (Plo : pow2_le_frac (ln - ld - 1) n d).
  { apply (pow2_le_frac_shift _ n d (ld + 1)); [lia|lia|].
    replace (ln - ld - 1 + (ld + 1)) with ln by lia.
    replace (Z.succ ld) with (ld + 1) in Ud by lia.
    pose proof (B64Facts.pow2_pos ln Nn). nia. }
  assert (Phi : ~ pow2_le_frac (ln - ld + 1) n d).
  { intros H. apply (pow2_le_frac_shift _ n d ld) in H; [|lia|lia].
    replace (ln - ld + 1 + ld) with (Z.succ ln) in H by lia.
    pose proof (B64Facts.pow2_pos ld Nd). nia. }
  unfold B64.ilog2. fold ln ld.
  destruct (B64.scaled n d (ln - ld)) as [a b] eqn:Es.
  assert (Hk : pow2_le_frac (ln - ld) n d <-> b <= a).
  { unfold pow2_le_frac. rewrite Es. reflexivity. }
  destruct (Z.leb_spec b a) as [Hba|Hba].
  - split; [now apply Hk|exact Phi].
  - split; [exact Plo|].
    replace (ln - ld - 1 + 1) with (ln - ld) by lia.
    intros H. apply Hk in H. lia.
Qed.

Lemma ilog2_unique (n d e e' : Z) :
  0 < d ->
  pow2_le_frac e n d -> ~ pow2_le_frac (e + 1) n d ->
  pow2_le_frac e' n d -> ~ pow2_le_frac (e' + 1) n d ->
  e = e'.
Proof.
  intros Hd P1 N1 P2 N2.
  destruct (Z.lt_trichotomy e e') as [H|[H|H]]; [exfalso|exact H|exfalso].
  - apply N1. apply (pow2_le_frac_mono e' (e + 1) n d Hd); [lia|exact P2].
  - apply N2. apply (pow2_le_frac_mono e (e' + 1) n d Hd); [lia|exact P1].
Qed.

Lemma scaled_scale (c n d e : Z) :
  B64.scaled (c * n) (c * d) e
  = (c * fst (B64.scaled n d e), c * snd (B64.scaled n d e)).
Proof.
  unfold B64.scaled. destruct (0 <=? e); cbn [fst snd]; f_equal; ring.
Qed.

Lemma pow2_le_frac_scale (c e n d : Z) :
  0 < c -> pow2_le_frac e (c * n) (c * d) <-> pow2_le_frac e n d.
Proof.
  intros Hc. unfold pow2_le_frac. rewrite scaled_scale. cbn [fst snd].
  symmetry. apply Z.mul_le_mono_pos_l. exact Hc.
Qed.

Lemma ilog2_scale (c n d : Z) :
  0 < c -> 0 < n -> 0 < d -> B64.ilog2 (c * n) (c * d) = B64.ilog2 n d.
Proof.
  intros Hc Hn Hd.
  destruct (ilog2_spec (c * n) (c * d)) as [P1 N1]; [nia|nia|].
  destruct (ilog2_spec n d Hn Hd) as [P2 N2].
  apply (ilog2_unique n d); try assumption.
  - now apply (pow2_le_frac_scale c).
  - intros H. apply N1. now apply pow2_le_frac_scale.
Qed.

Lemma rne_scale (c a b : Z) : 0 < c -> 0 < b -> B64.rne (c * a) (c * b) = B64.rne a b.
Proof.
  intros Hc Hb. unfold B64.rne.
  rewrite Z.div_mul_cancel_l by lia.
  rewrite Z.mul_mod_distr_l by lia.
  replace (2 * (c * (a mod b))) with (c * (2 * (a mod b))) by ring.
  destruct (Z.compare_spec (c * (2 * (a mod b))) (c * b)),
    (Z.compare_spec (2 * (a mod b)) b); try reflexivity; exfalso; nia.
Qed.

Lemma scaled_snd_pos (n d e : Z) : 0 < d -> 0 < snd (B64.scaled n d e).
Proof.
  intros Hd. unfold B64.scaled. destruct (Z.leb_spec 0 e); cbn [snd];
    [|assumption].
  pose proof (B64Facts.pow2_pos e ltac:(lia)). nia.
Qed.

(** The correctly rounded quotient only depends on the fraction. *)
Lemma rn_scale (c n d : Z) :
  0 < c -> n <> 0 -> 0 < d -> B64.rn (c * n) (c * d) = B64.rn n d.
Proof.
  intros Hc Hn Hd. unfold B64.rn.
  rewrite Z.abs_mul, (Z.abs_eq c) by lia.
  rewrite ilog2_scale by lia.
  set (e := Z.max (B64.ilog2 (Z.abs n) d - 52) (- 1074)).
  rewrite scaled_scale.
  pose proof (scaled_snd_pos n d e Hd).
  destruct (B64.scaled n d e) as [a b]. cbn [fst snd] in *.
  now rewrite rne_scale.
Qed.

Lemma rn_zero (d : Z) : 0 < d -> B64.mant (B64.rn 0 d) = 0.
Proof.
  intros Hd. unfold B64.rn. cbn [Z.abs]. set (e := Z.max _ _).
  pose proof (scaled_snd_pos 0 d e Hd) as Hs.
  assert (E0 : fst (B64.scaled 0 d e) = 0).
  { unfold B64.scaled. destruct (0 <=? e); reflexivity. }
  destruct (B64.scaled 0 d e) as [a b]. cbn [fst snd B64.mant] in *.
  subst a. exact (B64Facts.rne_exact 0 b Hs).
Qed.

Lemma mul_zero (x y : B64.t) :
  B64.mant x = 0 -> B64.mant (B64.mul x y) = 0.
Proof.
  intros Hx. unfold B64.mul. rewrite Hx, Z.mul_0_l.
  destruct (Z.leb_spec 0 (B64.expo x + B64.expo y)).
  - apply (rn_zero 1). lia.
  - apply rn_zero, B64Facts.pow2_pos. lia.
Qed.

Lemma round_zero (x : B64.t) : B64.mant x = 0 -> B64.round x = 0.
Proof.
  intros Hx. unfold B64.round. rewrite Hx.
  destruct (Z.leb_spec 0 (B64.expo x)); [apply Z.mul_0_l|].
  apply (B64Facts.rne_exact 0), B64Facts.pow2_pos. lia.
Qed.

Lemma percentage_zero (t : Z) : t <> 0 -> percentage 0 t = Ok 0.
Proof.
  intros Ht. unfold percentage, B64.true_div.
  destruct (Z.eqb_spec t 0); [contradiction|].
  destruct (Z.ltb_spec t 0); cbn [Z.opp];
    rewrite round_zero; try reflexivity; apply mul_zero, rn_zero; lia.
Qed.

Lemma percentage_scale (c s t : Z) :
  0 < c -> percentage (c * s) (c * t) = percentage s t.
Proof.
  intros Hc. destruct (Z.eq_dec t 0) as [->|Ht].
  { rewrite Z.mul_0_r. reflexivity. }
  destruct (Z.eq_dec s 0) as [->|Hs].
  { rewrite Z.mul_0_r, !percentage_zero by nia. reflexivity. }
  unfold percentage, B64.true_div.
  destruct (Z.eqb_spec (c * t) 0); [nia|].
  destruct (Z.eqb_spec t 0); [contradiction|].
  destruct (Z.ltb_spec (c * t) 0), (Z.ltb_spec t 0); try nia.
  - replace (- (c * s)) with (c * - s) by ring.
    replace (- (c * t)) with (c * - t) by ring.
    rewrite rn_scale by lia. reflexivity.
  - rewrite rn_scale by lia. reflexivity.
Qed.

(** X15.  The percentages only depend on the proportions of the scores:
    multiplying the three scores and the total by the same positive number
    changes nothing in the result.  The weight of 10 points for a hit
    cancels out: the score set of the numbers of hits resolves like the
    score set of the scores. *)
Theorem percentages_scale_invariant (c : Z) (scores : ScoreSet) :
  0 < c ->
  get_archetype_percentages
    {| Builder := c * Builder scores; Operator := c * Operator scores;
       Bridge := c * Bridge scores; Total := c * Total scores |}
  = get_archetype_percentages scores.
Proof.
  intros Hc. unfold get_archetype_percentages.
  cbn [Builder Operator Bridge Total].
  now rewrite !percentage_scale.
Qed.

Lemma percentages_scale_invariant_witness :
  get_archetype_percentages
    {| Builder := 10 * 23; Operator := 10 * 17; Bridge := 10 * 0;
       Total := 10 * 40 |}
  = get_archetype_percentages
      {| Builder := 23; Operator := 17; Bridge := 0; Total := 40 |}.
Proof.
  exact (percentages_scale_invariant 10
           {| Builder := 23; Operator := 17; Bridge := 0; Total := 40 |}
           ltac:(lia)).
Defined.

(** ** A larger score never gets a smaller percentage *)

Lemma dy_den_pos (e : Z) : 0 < dy_den e.
Proof.
  unfold dy_den. destruct (Z.leb_spec 0 e); [lia|].
  apply B64Facts.pow2_pos. lia.
Qed.

Lemma dy_shift (m e M : Z) :
  0 <= M -> 0 <= e + M ->
  dy_num m e * 2 ^ M = m * 2 ^ (e + M) * dy_den e.
Proof.
  intros HM HeM. unfold dy_num, dy_den.
  destruct (Z.leb_spec 0 e) as [He|He].
  - rewrite Z.pow_add_r by lia. ring.
  - assert (EM : 2 ^ M = 2 ^ (e + M) * 2 ^ (- e)).
    { rewrite <- Z.pow_add_r by lia. f_equal. lia. }
    rewrite EM. ring.
Qed.

Lemma le_val_shift (x y : B64.t) (M : Z) :
  0 <= M -> 0 <= B64.expo x + M -> 0 <= B64.expo y + M ->
  le_val x y
  <-> B64.mant x * 2 ^ (B64.expo x + M) <= B64.mant y * 2 ^ (B64.expo y + M).
Proof.
  intros HM Hx Hy. unfold le_val.
  pose proof (dy_shift (B64.mant x) (B64.expo x) M HM Hx) as Ex.
  pose proof (dy_shift (B64.mant y) (B64.expo y) M HM Hy) as Ey.
  pose proof (dy_den_pos (B64.expo x)) as Dx.
  pose proof (dy_den_pos (B64.expo y)) as Dy.
  pose proof (B64Facts.pow2_pos M HM) as PM.
  set (nx := dy_num (B64.mant x) (B64.expo x)) in *.
  set (ny := dy_num (B64.mant y) (B64.expo y)) in *.
  set (dx := dy_den (B64.expo x)) in *. set (dy := dy_den (B64.expo y)) in *.
  set (A := B64.mant x * 2 ^ (B64.expo x + M)) in *.
  set (B := B64.mant y * 2 ^ (B64.expo y + M)) in *.
  set (P := 2 ^ M) in *.
  assert (EA : A * (dx * dy) = nx * dy * P)
    by (replace (nx * dy * P) with (nx * P * dy) by ring; rewrite Ex; ring).
  assert (EB : B * (dx * dy) = ny * dx * P)
    by (replace (ny * dx * P) with (ny * P * dx) by ring; rewrite Ey; ring).
  assert (Dxy : 0 < dx * dy) by (apply Z.mul_pos_pos; assumption).
  split; intros H.
  - apply (Z.mul_le_mono_pos_r _ _ (dx * dy) Dxy). rewrite EA, EB.
    apply Z.mul_le_mono_nonneg_r; [lia|exact H].
  - apply (Z.mul_le_mono_pos_r _ _ P PM). rewrite <- EA, <- EB.
    apply Z.mul_le_mono_nonneg_r; [lia|exact H].
Qed.

Lemma mul_as_rn (x y : B64.t) :
  B64.mul x y
  = B64.rn (dy_num (B64.mant x * B64.mant y) (B64.expo x + B64.expo y))
      (dy_den (B64.expo x + B64.expo y)).
Proof. unfold B64.mul, dy_num, dy_den. now destruct (0 <=? _). Qed.

Lemma round_as_rne (x : B64.t) :
  B64.round x = B64.rne (dy_num (B64.mant x) (B64.expo x)) (dy_den (B64.expo x)).
Proof.
  unfold B64.round, dy_num, dy_den. destruct (0 <=? _); [|reflexivity].
  rewrite <- (Z.mul_1_r (B64.mant x * 2 ^ B64.expo x)) at 2.
  now rewrite B64Facts.rne_exact by lia.
Qed.

(** Rounding to the nearest integer is monotone. *)
Lemma rne_tie_even (a b : Z) :
  0 < b ->
  2 * (B64.rne a b * b - a) = b \/ 2 * (B64.rne a b * b - a) = - b ->
  Z.even (B64.rne a b) = true.
Proof.
  intros Hb H. unfold B64.rne in *.
  pose proof (Z.div_mod a b ltac:(lia)) as E.
  pose proof (Z.mod_pos_bound a b Hb) as B.
  set (q := a / b) in *. set (r := a mod b) in *.
  destruct (Z.compare_spec (2 * r) b) as [C|C|C].
  - destruct (Z.even q) eqn:Eq; [exact Eq|].
    replace (q + 1) with (Z.succ q) by lia.
    rewrite Z.even_succ, <- Z.negb_even, Eq. reflexivity.
  - exfalso. nia.
  - exfalso. nia.
Qed.

Lemma rne_mono (a b a' b' : Z) :
  0 < b -> 0 < b' -> a * b' <= a' * b -> B64.rne a b <= B64.rne a' b'.
Proof.
  intros Hb Hb' Hle.
  pose proof (B64Facts.rne_near a b Hb) as N.
  pose proof (B64Facts.rne_near a' b' Hb') as N'.
  pose proof (rne_tie_even a b Hb) as T.
  pose proof (rne_tie_even a' b' Hb') as T'.
  set (m := B64.rne a b) in *. set (m' := B64.rne a' b') in *.
  destruct (Z_le_gt_dec m m') as [|Hgt]; [assumption|exfalso].
  assert (Hbb : 0 < b * b') by nia.
  assert (H1 : 2 * m * b * b' <= 2 * a * b' + b * b') by nia.
  assert (H2 : 2 * a' * b - b * b' <= 2 * m' * b' * b) by nia.
  assert (H3 : 2 * (m - m') * (b * b') <= 2 * (b * b')) by nia.
  assert (Hm : m = m' + 1) by nia.
  assert (E1 : 2 * (m * b - a) = b) by nia.
  assert (E2 : 2 * (m' * b' - a') = - b') by nia.
  specialize (T (or_introl E1)). specialize (T' (or_intror E2)).
  rewrite Hm in T. replace (m' + 1) with (Z.succ m') in T by lia.
  rewrite Z.even_succ, <- Z.negb_even, T' in T. discriminate.
Qed.

Lemma scaled_shift (n d e M : Z) :
  0 <= M -> 0 <= e + M ->
  fst (B64.scaled n d e) * d * 2 ^ (e + M)
  = n * snd (B64.scaled n d e) * 2 ^ M.
Proof.
  intros HM HeM. unfold B64.scaled.
  destruct (Z.leb_spec 0 e) as [He|He]; cbn [fst snd].
  - rewrite Z.pow_add_r by lia. ring.
  - assert (EM : 2 ^ M = 2 ^ (e + M) * 2 ^ (- e)).
    { rewrite <- Z.pow_add_r by lia. f_equal. lia. }
    rewrite EM. ring.
Qed.

Lemma pow2_le_frac_trans (e n d n' d' : Z) :
  0 < d -> 0 < d' -> n * d' <= n' * d ->
  pow2_le_frac e n d -> pow2_le_frac e n' d'.
Proof.
  intros Hd Hd' Hle H.
  set (M := Z.abs e).
  apply (pow2_le_frac_shift e n d M) in H; [|lia|lia].
  apply (pow2_le_frac_shift e n' d' M); [lia|lia|].
  pose proof (B64Facts.pow2_pos M ltac:(lia)) as PM.
  pose proof (B64Facts.pow2_pos (e + M) ltac:(lia)) as PE.
  set (P := 2 ^ M) in *. set (Q := 2 ^ (e + M)) in *.
  apply (Z.mul_le_mono_pos_r _ _ d Hd).
  transitivity (n * P * d').
  - replace (d' * Q * d) with (d * Q * d') by ring.
    apply Z.mul_le_mono_nonneg_r; [lia|exact H].
  - replace (n * P * d') with (n * d' * P) by ring.
    replace (n' * P * d) with (n' * d * P) by ring.
    apply Z.mul_le_mono_nonneg_r; [lia|exact Hle].
Qed.

Lemma ilog2_mono (n d n' d' : Z) :
  0 < n -> 0 < d -> 0 < d' -> n * d' <= n' * d ->
  B64.ilog2 n d <= B64.ilog2 n' d'.
Proof.
  intros Hn Hd Hd' Hle.
  assert (Hn' : 0 < n') by nia.
  destruct (ilog2_spec n d Hn Hd) as [P1 _].
  destruct (ilog2_spec n' d' Hn' Hd') as [_ N2].
  destruct (Z_le_gt_dec (B64.ilog2 n d) (B64.ilog2 n' d')) as [|Hgt];
    [assumption|exfalso].
  apply N2.
  apply (pow2_le_frac_mono (B64.ilog2 n d)); [assumption|lia|].
  now apply (pow2_le_frac_trans _ n d).
Qed.

Lemma rn_form (n d : Z) :
  let e := Z.max (B64.ilog2 (Z.abs n) d - 52) (- 1074) in
  B64.rn n d
  = B64.mk (B64.rne (fst (B64.scaled n d e)) (snd (B64.scaled n d e))) e.
Proof. unfold B64.rn. cbv zeta. now destruct (B64.scaled n d _). Qed.

(** The mantissa of a rounded positive fraction: at most [2 ^ 53], and at
    least [2 ^ 52] when the exponent is not the smallest one. *)
Lemma rn_mant_bounds (n d : Z) :
  0 < n -> 0 < d ->
  let e := Z.max (B64.ilog2 n d - 52) (- 1074) in
  B64.rne (fst (B64.scaled n d e)) (snd (B64.scaled n d e)) <= 2 ^ 53
  /\ (e = B64.ilog2 n d - 52 ->
      2 ^ 52 <= B64.rne (fst (B64.scaled n d e)) (snd (B64.scaled n d e))).
Proof.
  intros Hn Hd e.
  destruct (ilog2_spec n d Hn Hd) as [P1 N1].
  set (l := B64.ilog2 n d) in *.
  set (M := Z.abs e + Z.abs l + 54).
  pose proof (scaled_shift n d e M ltac:(lia) ltac:(lia)) as Es.
  pose proof (scaled_snd_pos n d e Hd) as Hb.
  set (a := fst (B64.scaled n d e)) in *.
  set (b := snd (B64.scaled n d e)) in *.
  pose proof (B64Facts.pow2_pos M ltac:(lia)) as PM.
  pose proof (B64Facts.pow2_pos (e + M) ltac:(lia)) as PE.
  assert (P53 : 0 < 2 ^ 53) by reflexivity.
  assert (P52 : 0 < 2 ^ 52) by reflexivity.
  split.
  - rewrite <- (B64Facts.rne_exact (2 ^ 53) b Hb).
    apply rne_mono; try assumption.
    assert (Hlt : n * 2 ^ M < d * 2 ^ (l + 1 + M)).
    { apply Z.nle_gt. intros H. apply N1.
      apply (pow2_le_frac_shift (l + 1) n d M); [lia|lia|exact H]. }
    assert (Hpow : 2 ^ (l + 1 + M) <= 2 ^ 53 * 2 ^ (e + M)).
    { rewrite <- Z.pow_add_r by lia. apply Z.pow_le_mono_r; lia. }
    set (P := 2 ^ M) in *. set (Q := 2 ^ (e + M)) in *.
    set (R := 2 ^ (l + 1 + M)) in *.
    apply (Z.mul_le_mono_pos_r _ _ (d * Q)); [nia|].
    replace (a * b * (d * Q)) with (a * d * Q * b) by ring.
    rewrite Es.
    replace (n * b * P * b) with (n * P * (b * b)) by ring.
    replace (2 ^ 53 * b * b * (d * Q)) with (d * (2 ^ 53 * Q) * (b * b)) by ring.
    apply Z.mul_le_mono_nonneg_r; [nia|].
    transitivity (d * R); [lia|].
    apply Z.mul_le_mono_nonneg_l; lia.
  - intros He.
    rewrite <- (B64Facts.rne_exact (2 ^ 52) b Hb).
    apply rne_mono; try assumption.
    assert (Hge : d * 2 ^ (l + M) <= n * 2 ^ M).
    { apply (pow2_le_frac_shift l n d M); [lia|lia|exact P1]. }
    assert (Hpow : 2 ^ (l + M) = 2 ^ 52 * 2 ^ (e + M)).
    { rewrite <- Z.pow_add_r by lia. f_equal. lia. }
    rewrite Hpow in Hge.
    set (P := 2 ^ M) in *. set (Q := 2 ^ (e + M)) in *.
    apply (Z.mul_le_mono_pos_r _ _ (d * Q)); [nia|].
    replace (a * b * (d * Q)) with (a * d * Q * b) by ring.
    rewrite Es.
    replace (n * b * P * b) with (n * P * (b * b)) by ring.
    replace (2 ^ 52 * b * b * (d * Q)) with (d * (2 ^ 52 * Q) * (b * b)) by ring.
    apply Z.mul_le_mono_nonneg_r; [nia|exact Hge].
Qed.

(** Rounding to the nearest binary64 number is monotone. *)
Lemma rn_mono (n d n' d' : Z) :
  0 <= n -> 0 < d -> 0 < d' -> n * d' <= n' * d ->
  le_val (B64.rn n d) (B64.rn n' d').
Proof.
  intros Hn Hd Hd' Hle.
  assert (Hn' : 0 <= n') by nia.
  destruct (Z.eq_dec n 0) as [->|Hn0].
  { unfold le_val. pose proof (rn_zero d Hd) as E0.
    pose proof (B64Facts.rn_nonneg n' d' Hn' Hd') as Hm.
    pose proof (dy_den_pos (B64.expo (B64.rn 0 d))).
    destruct (B64.rn 0 d) as [m0 e0]. destruct (B64.rn n' d') as [m1 e1].
    cbn [B64.mant B64.expo] in *. subst m0.
    assert (dy_num 0 e0 = 0)
      by (unfold dy_num; destruct (0 <=? e0); reflexivity).
    assert (0 <= dy_num m1 e1).
    { unfold dy_num. destruct (Z.leb_spec 0 e1); [|assumption].
      pose proof (B64Facts.pow2_pos e1 ltac:(lia)). nia. }
    nia. }
  assert (Hp : 0 < n) by lia. assert (Hp' : 0 < n') by nia.
  pose proof (ilog2_mono n d n' d' Hp Hd Hd' Hle) as Hl.
  pose proof (rn_mant_bounds n d Hp Hd) as [Hup _].
  pose proof (rn_mant_bounds n' d' Hp' Hd') as [_ Hlo].
  rewrite (rn_form n d), (rn_form n' d').
  rewrite !Z.abs_eq by lia. cbv zeta in *.
  set (l := B64.ilog2 n d) in *. set (l' := B64.ilog2 n' d') in *.
  set (e := Z.max (l - 52) (- 1074)) in *.
  set (e' := Z.max (l' - 52) (- 1074)) in *.
  set (M := Z.abs e + Z.abs e' + 1).
  apply (le_val_shift _ _ M); cbn [B64.mant B64.expo]; try lia.
  pose proof (scaled_snd_pos n d e Hd) as Hb.
  pose proof (scaled_snd_pos n' d' e' Hd') as Hb'.
  pose proof (B64Facts.pow2_pos (e + M) ltac:(lia)) as PE.
  pose proof (B64Facts.pow2_pos (e' + M) ltac:(lia)) as PE'.
  destruct (Z.eq_dec e e') as [Eee|Nee].
  - rewrite <- Eee in *. apply Z.mul_le_mono_nonneg_r; [lia|].
    apply rne_mono; try assumption.
    pose proof (scaled_shift n d e M ltac:(lia) ltac:(lia)) as Es.
    pose proof (scaled_shift n' d' e M ltac:(lia) ltac:(lia)) as Es'.
    pose proof (B64Facts.pow2_pos M ltac:(lia)) as PM.
    set (a := fst (B64.scaled n d e)) in *.
    set (b := snd (B64.scaled n d e)) in *.
    set (a' := fst (B64.scaled n' d' e)) in *.
    set (b' := snd (B64.scaled n' d' e)) in *.
    set (P := 2 ^ M) in *. set (Q := 2 ^ (e + M)) in *.
    apply (Z.mul_le_mono_pos_r _ _ (d * d' * Q)); [nia|].
    replace (a * b' * (d * d' * Q)) with (a * d * Q * (b' * d')) by ring.
    replace (a' * b * (d * d' * Q)) with (a' * d' * Q * (b * d)) by ring.
    rewrite Es, Es'.
    replace (n * b * P * (b' * d')) with (n * d' * (b * b' * P)) by ring.
    replace (n' * b' * P * (b * d)) with (n' * d * (b * b' * P)) by ring.
    apply Z.mul_le_mono_nonneg_r; [nia|exact Hle].
  - assert (Hlt : e + 1 <= e') by lia.
    assert (He' : e' = l' - 52) by lia.
    specialize (Hlo He').
    set (m := B64.rne _ _) in *. set (m' := B64.rne _ _) in *.
    assert (Hpow : 2 * 2 ^ (e + M) <= 2 ^ (e' + M)).
    { replace (2 * 2 ^ (e + M)) with (2 ^ (e + M + 1))
        by (rewrite Z.pow_add_r by lia; ring).
      apply Z.pow_le_mono_r; lia. }
    change (2 ^ 53) with (2 ^ 52 * 2) in Hup.
    assert (P52 : 0 < 2 ^ 52) by reflexivity.
    set (K := 2 ^ 52) in *. set (Q := 2 ^ (e + M)) in *.
    set (Q' := 2 ^ (e' + M)) in *.
    transitivity (K * 2 * Q); [apply Z.mul_le_mono_nonneg_r; lia|].
    transitivity (K * Q'); [nia|].
    apply Z.mul_le_mono_nonneg_r; lia.
Qed.

Lemma dy_num_nonneg (m e : Z) : 0 <= m -> 0 <= dy_num m e.
Proof.
  intros Hm. unfold dy_num. destruct (Z.leb_spec 0 e); [|assumption].
  pose proof (B64Facts.pow2_pos e ltac:(lia)). nia.
Qed.

Lemma mul_mono (x x' y : B64.t) :
  0 <= B64.mant x -> 0 <= B64.mant y ->
  le_val x x' -> le_val (B64.mul x y) (B64.mul x' y).
Proof.
  intros Hx Hy H. rewrite !mul_as_rn.
  apply rn_mono; try apply dy_den_pos.
  - apply dy_num_nonneg. nia.
  - set (M1 := Z.abs (B64.expo x) + Z.abs (B64.expo x') + Z.abs (B64.expo y)).
    apply (le_val_shift x x' M1) in H; [|lia|lia|lia].
    apply (le_val_shift
             (B64.mk (B64.mant x * B64.mant y) (B64.expo x + B64.expo y))
             (B64.mk (B64.mant x' * B64.mant y) (B64.expo x' + B64.expo y))
             (M1 - B64.expo y)); cbn [B64.mant B64.expo]; try lia.
    replace (B64.expo x + B64.expo y + (M1 - B64.expo y))
      with (B64.expo x + M1) by lia.
    replace (B64.expo x' + B64.expo y + (M1 - B64.expo y))
      with (B64.expo x' + M1) by lia.
    replace (B64.mant x * B64.mant y * 2 ^ (B64.expo x + M1))
      with (B64.mant x * 2 ^ (B64.expo x + M1) * B64.mant y) by ring.
    replace (B64.mant x' * B64.mant y * 2 ^ (B64.expo x' + M1))
      with (B64.mant x' * 2 ^ (B64.expo x' + M1) * B64.mant y) by ring.
    apply Z.mul_le_mono_nonneg_r; assumption.
Qed.

Lemma round_mono (x y : B64.t) : le_val x y -> B64.round x <= B64.round y.
Proof.
  intros H. rewrite !round_as_rne.
  apply rne_mono; try apply dy_den_pos. exact H.
Qed.

Lemma percentage_mono (s s' t p p' : Z) :
  0 <= s <= s' -> 0 < t ->
  percentage s t = Ok p -> percentage s' t = Ok p' -> p <= p'.
Proof.
  intros Hs Ht. unfold percentage, B64.true_div.
  destruct (Z.eqb_spec t 0); [lia|].
  destruct (Z.ltb_spec t 0); [lia|].
  intros E E'. injection E as <-. injection E' as <-.
  apply round_mono, mul_mono.
  - apply B64Facts.rn_nonneg; lia.
  - rewrite B64Facts.of_int_100. cbn [B64.mant]. lia.
  - apply rn_mono; try lia. nia.
Qed.

(** The primary percentage is the largest of the three. *)
Lemma primary_is_max (scores : ScoreSet) (r : Resolved) (pb po pr : Z) :
  get_archetype_percentages scores = Ok r ->
  pcts r = [("Builder", pb); ("Operator", po); ("Bridge", pr)] ->
  exists primary rest,
    sorted_pcts r = primary :: rest
    /\ snd primary = Z.max pb (Z.max po pr).
Proof.
  intros H Ep.
  destruct (resolved_inv scores r H) as (_ & _ & _ & _ & _ & _ & _ & Es & _).
  rewrite Es, Ep. cbn [sorted_desc insert_desc snd].
  destruct (Z.leb_spec pr po); cbn [insert_desc snd];
    destruct (Z.leb_spec po pb); cbn [insert_desc snd];
    try destruct (Z.leb_spec pr pb); cbn [insert_desc snd];
    do 2 eexists; (split; [reflexivity|cbn [snd]; lia]).
Qed.

(** X16.  The percentage is monotone in the score: for a positive total, a
    score that is not smaller never gets a smaller percentage (so a category
    with a larger percentage has a larger score), and the primary percentage
    is the percentage of the largest of the three scores. *)
Theorem percentage_monotone (scores : ScoreSet) (r : Resolved) :
  0 <= Builder scores -> 0 <= Operator scores -> 0 <= Bridge scores ->
  0 < Total scores ->
  get_archetype_percentages scores = Ok r ->
  (forall s s' p p',
      0 <= s <= s' ->
      percentage s (Total scores) = Ok p ->
      percentage s' (Total scores) = Ok p' -> p <= p')
  /\ exists primary rest,
       sorted_pcts r = primary :: rest
       /\ percentage
            (Z.max (Builder scores) (Z.max (Operator scores) (Bridge scores)))
            (Total scores) = Ok (snd primary).
Proof.
  intros Hb Ho Hr Ht H. split.
  - intros s s' p p' Hs. now apply percentage_mono.
  - destruct (resolved_inv scores r H)
      as (pb & po & pr & Eb & Eo & Er & Ep & _).
    destruct (primary_is_max scores r pb po pr H Ep)
      as (primary & rest & Es & Emax).
    exists primary, rest. split; [exact Es|]. rewrite Emax.
    set (B := Builder scores) in *. set (O := Operator scores) in *.
    set (R := Bridge scores) in *. set (T := Total scores) in *.
    assert (Mbo : B <= O -> pb <= po)
      by (intros; now apply (percentage_mono B O T)).
    assert (Mob : O <= B -> po <= pb)
      by (intros; now apply (percentage_mono O B T)).
    assert (Mbr : B <= R -> pb <= pr)
      by (intros; now apply (percentage_mono B R T)).
    assert (Mrb : R <= B -> pr <= pb)
      by (intros; now apply (percentage_mono R B T)).
    assert (Mor : O <= R -> po <= pr)
      by (intros; now apply (percentage_mono O R T)).
    assert (Mro : R <= O -> pr <= po)
      by (intros; now apply (percentage_mono R O T)).
    destruct (Z.max_spec O R) as [[Hor ->]|[Hor ->]].
    + destruct (Z.max_spec B R) as [[Hbr ->]|[Hbr ->]].
      * replace (Z.max pb (Z.max po pr)) with pr by lia. exact Er.
      * replace (Z.max pb (Z.max po pr)) with pb by lia. exact Eb.
    + destruct (Z.max_spec B O) as [[Hbo ->]|[Hbo ->]].
      * replace (Z.max pb (Z.max po pr)) with po by lia. exact Eo.
      * replace (Z.max pb (Z.max po pr)) with pb by lia. exact Eb.
Qed.

Lemma percentage_monotone_witness :
  exists primary rest,
    sorted_pcts {| pcts := [("Builder", 12); ("Operator", 25); ("Bridge", 62)];
                   sorted_pcts :=
                     [("Bridge", 62); ("Operator", 25); ("Builder", 12)];
                   is_hybrid := false |} = primary :: rest
    /\ percentage (Z.max 10 (Z.max 20 50)) 80 = Ok (snd primary).
Proof.
  assert (E : get_archetype_percentages
                {| Builder := 10; Operator := 20; Bridge := 50; Total := 80 |}
              = Ok {| pcts := [("Builder", 12); ("Operator", 25); ("Bridge", 62)];
                      sorted_pcts :=
                        [("Bridge", 62); ("Operator", 25); ("Builder", 12)];
                      is_hybrid := false |})
    by (vm_compute; reflexivity).
  destruct (percentage_monotone
              {| Builder := 10; Operator := 20; Bridge := 50; Total := 80 |} _
              ltac:(cbn [Builder]; lia) ltac:(cbn [Operator]; lia)
              ltac:(cbn [Bridge]; lia) ltac:(cbn [Total]; lia) E)
    as (_ & primary & rest & Es & Ep).
  exists primary, rest. split; [exact Es|exact Ep].
Defined.

(** The same across two totals: the percentage follows the fraction. *)
Lemma percentage_mono_frac (s t s' t' p p' : Z) :
  0 <= s -> 0 < t -> 0 < t' -> s * t' <= s' * t ->
  percentage s t = Ok p -> percentage s' t' = Ok p' -> p <= p'.
Proof.
  intros Hs Ht Ht' Hle. unfold percentage, B64.true_div.
  destruct (Z.eqb_spec t 0); [lia|]. destruct (Z.eqb_spec t' 0); [lia|].
  destruct (Z.ltb_spec t 0); [lia|]. destruct (Z.ltb_spec t' 0); [lia|].
  intros E E'. injection E as <-. injection E' as <-.
  apply round_mono, mul_mono.
  - apply B64Facts.rn_nonneg; lia.
  - rewrite B64Facts.of_int_100. cbn [B64.mant]. lia.
  - apply rn_mono; assumption.
Qed.

(** ** The whole page: from the text to the row *)

Lemma short_text_app_l (a b : string) : short_text (a ++ b) -> short_text a.
Proof. unfold short_text. rewrite append_length. lia. Qed.

Lemma short_text_app_r (a b : string) : short_text (a ++ b) -> short_text b.
Proof. unfold short_text. rewrite append_length. lia. Qed.

(** X17.  Lines 250 to 302 on any text: the scorer and the resolver return,
    the header and the log row are built without a failing subscript, and
    they carry the same label.  For a text of fewer than [2 ^ 48]
    characters the three scores of the row lie between 0 and 100 and its
    gap between 0 and 100. *)
Theorem page_pipeline_is_total
    (timestamp session_id text audit_result : string) :
  exists r row,
    get_archetype_percentages (analyze_archetype text) = Ok r
    /\ Log.new_row timestamp session_id text (pcts r) (sorted_pcts r)
         audit_result (is_hybrid r) = inr row
    /\ Log.header (sorted_pcts r) (is_hybrid r)
       = inr (Log.Archetype_Label row)
    /\ (short_text text ->
        0 <= Log.Score_Builder row <= 100
        /\ 0 <= Log.Score_Operator row <= 100
        /\ 0 <= Log.Score_Bridge row <= 100
        /\ 0 <= Log.Gap_Delta row <= 100).
Proof.
  destruct (resolved_defined _ (total_nonzero text)) as [r Hres].
  destruct (resolved_inv _ r Hres) as (pb & po & pr & Eb & Eo & Er & Ep & _).
  destruct (resolved_shape _ r Hres) as (p0 & p1 & p2 & Es & H10 & H21 & Hp & _).
  exists r. unfold Log.new_row, Log.header, Log.item.
  rewrite Es, Ep. cbn [nth_error Log.lookup String.eqb].
  eexists. split; [exact Hres|]. split; [reflexivity|]. split; [reflexivity|].
  cbn [Log.Score_Builder Log.Score_Operator Log.Score_Bridge Log.Gap_Delta].
  intros Hs.
  assert (W : 0 <= Builder (analyze_archetype text) <= Total (analyze_archetype text)
              /\ 0 <= Operator (analyze_archetype text) <= Total (analyze_archetype text)
              /\ 0 <= Bridge (analyze_archetype text) <= Total (analyze_archetype text)
              /\ 0 < Total (analyze_archetype text)).
  { unfold analyze_archetype. rewrite after_shift_value by assumption.
    set (nb := Z.of_nat (hits BUILDER_VERBS text)).
    set (no := Z.of_nat (hits OPERATOR_VERBS text)).
    set (nr := Z.of_nat (hits BRIDGE_VERBS text)).
    assert (0 <= nb /\ 0 <= no /\ 0 <= nr) as (Hb & Ho & Hr)
      by (subst nb no nr; lia).
    unfold finish. cbn [builder_score operator_score bridge_score].
    destruct (is_commercial text), (is_executive text);
      match goal with |- context [?t =? 0] => destruct (Z.eqb_spec t 0) end;
      cbn [Builder Operator Bridge Total]; lia. }
  destruct W as (Wb & Wo & Wr & Wt).
  destruct (percentage_bounds _ _ Wb Wt) as (pb' & Eb' & Bb).
  destruct (percentage_bounds _ _ Wo Wt) as (po' & Eo' & Bo).
  destruct (percentage_bounds _ _ Wr Wt) as (pr' & Er' & Br).
  rewrite Eb in Eb'. rewrite Eo in Eo'. rewrite Er in Er'.
  injection Eb' as <-. injection Eo' as <-. injection Er' as <-.
  split; [exact Bb|]. split; [exact Bo|]. split; [exact Br|].
  assert (F : Forall (fun x => 0 <= snd x <= 100) [p0; p1; p2]).
  { eapply Permutation_Forall; [exact Hp|]. rewrite Ep.
    repeat (apply Forall_cons; [cbn [snd]; lia|]). apply Forall_nil. }
  inversion F as [|? ? F0 F']; subst. inversion F' as [|? ? F1 _]; subst.
  lia.
Qed.

Lemma page_pipeline_is_total_witness :
  exists r row,
    get_archetype_percentages (analyze_archetype "We build; they manage.")
    = Ok r
    /\ Log.new_row "t" "s" "We build; they manage." (pcts r) (sorted_pcts r)
         "report" (is_hybrid r) = inr row
    /\ 0 <= Log.Gap_Delta row <= 100.
Proof.
  destruct (page_pipeline_is_total "t" "s" "We build; they manage." "report")
    as (r & row & Hres & Hrow & _ & Hb).
  exists r, row. split; [exact Hres|]. split; [exact Hrow|].
  assert (S1 : short_text "We build; they manage.") by reflexivity.
  exact (proj2 (proj2 (proj2 (Hb S1)))).
Defined.

(** X18.  The two adjustments only move the signal towards Bridge: for a
    text of fewer than [2 ^ 48] characters the Bridge score never goes down
    (base, after the boost, after the shift), the Operator score never goes
    up and keeps four fifths of its base value under the shift, and the
    Builder score is the base score throughout. *)
Theorem adjustments_favour_bridge (text : string) :
  short_text text ->
  bridge_score (base_scores text) <= bridge_score (after_boost text)
  /\ bridge_score (after_boost text) <= bridge_score (after_shift text)
  /\ operator_score (after_boost text) = operator_score (base_scores text)
  /\ operator_score (after_shift text) <= operator_score (base_scores text)
  /\ 5 * operator_score (after_shift text)
     = (if is_executive text then 4 else 5) * operator_score (base_scores text)
  /\ builder_score (after_shift text) = builder_score (base_scores text).
Proof.
  intros Hs.
  rewrite after_shift_value, after_boost_value, base_scores_hits by assumption.
  cbn [builder_score operator_score bridge_score].
  destruct (is_commercial text), (is_executive text); repeat split; lia.
Qed.

Lemma adjustments_favour_bridge_witness :
  short_text "Director of sales: manage accounts, sell, build"
  /\ bridge_score (base_scores "Director of sales: manage accounts, sell, build")
     <= bridge_score (after_boost "Director of sales: manage accounts, sell, build").
Proof.
  assert (S1 : short_text "Director of sales: manage accounts, sell, build")
    by reflexivity.
  split; [exact S1|]. exact (proj1 (adjustments_favour_bridge _ S1)).
Defined.

(** The hits of a text into which a word was inserted between two words. *)
Lemma hits_insert (L : list string) (a sep1 w sep2 b : string) :
  w <> EmptyString -> all_chars is_word w = true ->
  all_chars (fun c => negb (is_word c)) sep1 = true ->
  all_chars (fun c => negb (is_word c)) sep2 = true ->
  ends_with is_word a = false \/ sep1 <> EmptyString ->
  starts_with is_word b = false \/ sep2 <> EmptyString ->
  ends_with is_word a = false \/ starts_with is_word b = false ->
  hits L (a ++ sep1 ++ w ++ sep2 ++ b)
  = (hits L (a ++ b) + (if mem (lower w) L then 1 else 0))%nat.
Proof.
  intros Hw Hall H1 H2 Ha Hb Hab. unfold hits.
  rewrite findall_words_insert by assumption.
  unfold findall_words at 3. rewrite lower_app, runs_app.
  - fold (findall_words (lower a)). fold (findall_words (lower b)).
    rewrite !filter_app, !length_app. cbn [filter].
    destruct (mem (lower w) L); cbn [List.length]; lia.
  - destruct Hab as [H|H]; [left; now rewrite ends_with_lower|
                            right; now rewrite starts_with_lower].
Qed.

(** X19.  The Builder percentage is monotone in the occurrences of Builder
    keywords as long as the context does not change: when one more
    whole-word occurrence of a Builder keyword is put between two words of
    a text (fewer than [2 ^ 48] characters) and the text is commercial, and
    executive, exactly when it was before, the Builder percentage does not
    go down. *)
Theorem builder_percentage_monotonic (a sep1 w sep2 b k : string) (p p' : Z) :
  short_text (a ++ sep1 ++ w ++ sep2 ++ b) ->
  In k BUILDER_VERBS -> lower w = k ->
  all_chars (fun c => negb (is_word c)) sep1 = true ->
  all_chars (fun c => negb (is_word c)) sep2 = true ->
  ends_with is_word a = false \/ sep1 <> EmptyString ->
  starts_with is_word b = false \/ sep2 <> EmptyString ->
  ends_with is_word a = false \/ starts_with is_word b = false ->
  is_commercial (a ++ sep1 ++ w ++ sep2 ++ b) = is_commercial (a ++ b) ->
  is_executive (a ++ sep1 ++ w ++ sep2 ++ b) = is_executive (a ++ b) ->
  percentage (Builder (analyze_archetype (a ++ b)))
    (Total (analyze_archetype (a ++ b))) = Ok p ->
  percentage (Builder (analyze_archetype (a ++ sep1 ++ w ++ sep2 ++ b)))
    (Total (analyze_archetype (a ++ sep1 ++ w ++ sep2 ++ b))) = Ok p' ->
  p <= p'.
Proof.
  intros Hs Hk Hw H1 H2 Ha Hb Hab Hc He.
  destruct (lexicon_keywords_are_words k) as [Hne Hall];
    [apply in_or_app; now left|].
  assert (Hw0 : w <> EmptyString).
  { intros ->. apply Hne. now rewrite <- Hw. }
  assert (Hw1 : all_chars is_word w = true).
  { rewrite <- all_chars_lower. now rewrite Hw. }
  assert (Hs0 : short_text (a ++ b)).
  { unfold short_text in *. rewrite !append_length in *. lia. }
  pose proof (hits_insert BUILDER_VERBS a sep1 w sep2 b Hw0 Hw1 H1 H2 Ha Hb Hab)
    as HB.
  pose proof (hits_insert OPERATOR_VERBS a sep1 w sep2 b Hw0 Hw1 H1 H2 Ha Hb Hab)
    as HO.
  pose proof (hits_insert BRIDGE_VERBS a sep1 w sep2 b Hw0 Hw1 H1 H2 Ha Hb Hab)
    as HR.
  rewrite Hw in HB, HO, HR.
  apply mem_iff in Hk. destruct (lexicons_disjoint k) as [D _].
  destruct (D Hk) as [Do Dr]. rewrite Hk in HB. rewrite Do in HO.
  rewrite Dr in HR.
  unfold analyze_archetype.
  rewrite (after_shift_value (a ++ sep1 ++ w ++ sep2 ++ b)) by assumption.
  rewrite (after_shift_value (a ++ b)) by assumption.
  rewrite HB, HO, HR, Hc, He, !Nat.add_0_r.
  set (nb := hits BUILDER_VERBS (a ++ b)).
  set (no := Z.of_nat (hits OPERATOR_VERBS (a ++ b))).
  set (nr := Z.of_nat (hits BRIDGE_VERBS (a ++ b))).
  replace (Z.of_nat (nb + 1)) with (Z.of_nat nb + 1) by lia.
  assert (0 <= Z.of_nat nb /\ 0 <= no /\ 0 <= nr) as (Pb & Po & Pr)
    by (subst no nr; lia).
  set (zb := Z.of_nat nb) in *.
  unfold finish. cbn [builder_score operator_score bridge_score].
  destruct (is_commercial (a ++ b)), (is_executive (a ++ b));
    repeat match goal with
           | |- context [?t =? 0] => destruct (Z.eqb_spec t 0)
           end;
    cbn [Builder Total]; try lia;
    intros E E';
    (eapply percentage_mono_frac; [| | | |exact E|exact E']; nia).
Qed.

Lemma builder_percentage_monotonic_witness :
  percentage (Builder (analyze_archetype ("We manage" ++ ", sell")))
    (Total (analyze_archetype ("We manage" ++ ", sell"))) = Ok 0
  /\ percentage
       (Builder (analyze_archetype ("We manage" ++ ", " ++ "Build" ++ "" ++ ", sell")))
       (Total (analyze_archetype ("We manage" ++ ", " ++ "Build" ++ "" ++ ", sell")))
     = Ok 33
  /\ 0 <= 33.
Proof.
  assert (E : percentage (Builder (analyze_archetype ("We manage" ++ ", sell")))
                (Total (analyze_archetype ("We manage" ++ ", sell"))) = Ok 0)
    by (vm_compute; reflexivity).
  assert (E' : percentage
                 (Builder (analyze_archetype
                             ("We manage" ++ ", " ++ "Build" ++ "" ++ ", sell")))
                 (Total (analyze_archetype
                           ("We manage" ++ ", " ++ "Build" ++ "" ++ ", sell")))
               = Ok 33)
    by (vm_compute; reflexivity).
  split; [exact E|]. split; [exact E'|].
  refine (builder_percentage_monotonic "We manage" ", " "Build" "" ", sell"
            "build" 0 33 _ _ eq_refl eq_refl eq_refl _ _ _ _ _ E E').
  - reflexivity.
  - apply mem_iff. reflexivity.
  - right. discriminate.
  - left. reflexivity.
  - right. reflexivity.
  - vm_compute. reflexivity.
  - vm_compute. reflexivity.
Defined.

(** The condition on the context matters: the Builder keyword [program]
    holds the commercial phrase [pr]; putting it into a text that was not
    commercial boosts the Bridge score, and the Builder percentage can go
    down (here from 23 to 21). *)
Remark builder_percentage_can_drop :
  percentage
    (Builder (analyze_archetype (replicate 3 "build " ++ replicate 10 "sell ")))
    (Total (analyze_archetype (replicate 3 "build " ++ replicate 10 "sell ")))
  = Ok 23
  /\ percentage
       (Builder (analyze_archetype
                   (replicate 3 "build " ++ "program " ++ replicate 10 "sell ")))
       (Total (analyze_archetype
                 (replicate 3 "build " ++ "program " ++ replicate 10 "sell ")))
     = Ok 21.
Proof. split; vm_compute; reflexivity. Qed.

(** * The rounding of the percentages *)

(** Rounding to the nearest integer only depends on the fraction. *)
Lemma rne_frac (a b a' b' : Z) :
  0 < b -> 0 < b' -> a * b' = a' * b -> B64.rne a b = B64.rne a' b'.
Proof.
  intros Hb Hb' E. apply Z.le_antisymm; apply rne_mono; lia.
Qed.

(** An exact percentage [k + 1/2] is computed as the one of [2 * k + 1] out
    of 200. *)
Lemma percentage_half (s t k : Z) :
  0 < t -> 200 * s = (2 * k + 1) * t ->
  percentage s t = percentage (2 * k + 1) 200.
Proof.
  intros Ht E. rewrite <- (percentage_scale 200 s t) by lia.
  rewrite E. replace ((2 * k + 1) * t) with (t * (2 * k + 1)) by ring.
  replace (200 * t) with (t * 200) by ring. now apply percentage_scale.
Qed.

Lemma half_even_half (s t k : Z) :
  0 < t -> 200 * s = (2 * k + 1) * t ->
  half_even_percentage s t = B64.rne (2 * k + 1) 2.
Proof.
  intros Ht E. unfold half_even_percentage. apply rne_frac; lia.
Qed.

(** The hundred half-integer percentages: all of them go to the even
    neighbour, but 54.5 and 57.5. *)
Lemma percentage_halves (k : Z) :
  0 <= k < 100 ->
  percentage (2 * k + 1) 200
  = Ok (if k =? 54 then 55 else if k =? 57 then 57 else B64.rne (2 * k + 1) 2).
Proof.
  intros Hk.
  assert (H : forallb
                (fun n =>
                   match percentage (2 * Z.of_nat n + 1) 200 with
                   | Ok p =>
                       p =? (if Z.of_nat n =? 54 then 55
                             else if Z.of_nat n =? 57 then 57
                             else B64.rne (2 * Z.of_nat n + 1) 2)
                   | Raise _ => false
                   end) (seq 0 100) = true)
    by (vm_compute; reflexivity).
  rewrite forallb_forall in H. specialize (H (Z.to_nat k)).
  rewrite Z2Nat.id in H by lia.
  destruct (percentage (2 * k + 1) 200) as [p|e].
  - f_equal. apply Z.eqb_eq, H, in_seq. lia.
  - discriminate H. apply in_seq. lia.
Qed.

(** The percentage of the code is [rounded_percentage]. *)
Lemma percentage_rounded (s t : Z) :
  0 <= s <= t -> 0 < t < 2 ^ 44 ->
  percentage s t = Ok (rounded_percentage s t).
Proof.
  intros Hs Ht. unfold rounded_percentage.
  destruct (Z.eqb_spec (200 * s) (109 * t)) as [E|N1].
  { rewrite (percentage_half s t 54) by lia. vm_compute. reflexivity. }
  destruct (Z.eqb_spec (200 * s) (115 * t)) as [E|N2].
  { rewrite (percentage_half s t 57) by lia. vm_compute. reflexivity. }
  destruct (percentage_nearest s t Hs Ht) as (p & Ep & Hnear & Hnt).
  rewrite Ep. f_equal.
  destruct (Z.eq_dec (2 * ((s * 100) mod t)) t) as [Tie|NT]; [|exact (Hnt NT)].
  pose proof (Z.div_mod (s * 100) t ltac:(lia)) as D.
  pose proof (Z.mod_pos_bound (s * 100) t ltac:(lia)) as B.
  set (q := (s * 100) / t) in *. set (r := (s * 100) mod t) in *.
  assert (E : 200 * s = (2 * q + 1) * t) by lia.
  assert (Hq : 0 <= q < 100) by nia.
  rewrite (percentage_half s t q) in Ep by lia.
  rewrite percentage_halves in Ep by lia.
  destruct (Z.eqb_spec q 54); [lia|]. destruct (Z.eqb_spec q 57); [lia|].
  injection Ep as <-. symmetry. apply half_even_half; lia.
Qed.

(** C8 (amended).  For every score set with scores between 0 and a total
    below [2 ^ 44], each percentage is an integer nearest to the exact
    [score / total * 100], and it is that value rounded half-to-even, with
    two exceptions that come from double precision: an exact 54.5
    ([200 * score = 109 * total]) gives 55 where half-to-even gives 54, and
    an exact 57.5 ([200 * score = 115 * total]) gives 57 where half-to-even
    gives 58.  Every other exact half goes to the even integer: 12.5, for 10
    of 80, gives 12 and 37.5, for 30 of 80, gives 38. *)
Theorem percentage_nearest_integer (scores : ScoreSet) :
  0 <= Builder scores <= Total scores ->
  0 <= Operator scores <= Total scores ->
  0 <= Bridge scores <= Total scores ->
  0 < Total scores < 2 ^ 44 ->
  (exists r,
      get_archetype_percentages scores = Ok r
      /\ pcts r
         = [("Builder", rounded_percentage (Builder scores) (Total scores));
            ("Operator", rounded_percentage (Operator scores) (Total scores));
            ("Bridge", rounded_percentage (Bridge scores) (Total scores))])
  /\ (forall s, 0 <= s <= Total scores ->
        nearest_percentage s (Total scores)
          (rounded_percentage s (Total scores))
        /\ (200 * s = 109 * Total scores ->
            rounded_percentage s (Total scores) = 55
            /\ half_even_percentage s (Total scores) = 54)
        /\ (200 * s = 115 * Total scores ->
            rounded_percentage s (Total scores) = 57
            /\ half_even_percentage s (Total scores) = 58)
        /\ (200 * s <> 109 * Total scores ->
            200 * s <> 115 * Total scores ->
            rounded_percentage s (Total scores)
            = half_even_percentage s (Total scores)))
  /\ percentage 10 80 = Ok 12
  /\ percentage 30 80 = Ok 38.
Proof.
  intros Hb Ho Hr Ht.
  split; [|split; [|split; vm_compute; reflexivity]].
  - destruct (resolved_defined scores ltac:(lia)) as [r Hres].
    destruct (resolved_inv scores r Hres)
      as (pb & po & pr & Eb & Eo & Er & Ep & _).
    rewrite percentage_rounded in Eb, Eo, Er by assumption.
    injection Eb as <-. injection Eo as <-. injection Er as <-.
    exists r. split; [exact Hres|exact Ep].
  - intros s Hs. split; [|split; [|split]].
    + destruct (percentage_nearest s _ Hs Ht) as (p & Ep & Np).
      rewrite percentage_rounded in Ep by assumption.
      injection Ep as <-. exact Np.
    + intros E. unfold rounded_percentage.
      rewrite (proj2 (Z.eqb_eq _ _) E).
      split; [reflexivity|].
      rewrite (half_even_half s _ 54) by lia. reflexivity.
    + intros E. unfold rounded_percentage.
      destruct (Z.eqb_spec (200 * s) (109 * Total scores)); [lia|].
      rewrite (proj2 (Z.eqb_eq _ _) E).
      split; [reflexivity|].
      rewrite (half_even_half s _ 57) by lia. reflexivity.
    + intros N1 N2. unfold rounded_percentage.
      destruct (Z.eqb_spec (200 * s) (109 * Total scores)); [contradiction|].
      destruct (Z.eqb_spec (200 * s) (115 * Total scores)); [contradiction|].
      reflexivity.
Qed.

Lemma percentage_nearest_integer_witness :
  exists r,
    get_archetype_percentages
      {| Builder := 1090; Operator := 910; Bridge := 0; Total := 2000 |} = Ok r
    /\ pcts r = [("Builder", 55); ("Operator", 46); ("Bridge", 0)].
Proof.
  destruct (percentage_nearest_integer
              {| Builder := 1090; Operator := 910; Bridge := 0; Total := 2000 |})
    as [(r & Hres & Ep) _];
    try (cbn [Builder Operator Bridge Total]; lia).
  exists r. split; [exact Hres|].
  rewrite Ep. reflexivity.
Defined.

(** The claim C8 as worded fails on a text with 23 Builder hits and 17
    Operator hits: the exact Builder percentage is 57.5, which half-to-even
    rounds to 58, while the double [(230 / 400) * 100] lies just below 57.5
    and [round] returns 57. *)
Lemma half_even_counterexample :
  analyze_archetype (replicate 23 "build " ++ replicate 17 "run ")
  = {| Builder := 230; Operator := 170; Bridge := 0; Total := 400 |}
  /\ ~ (forall r,
          get_archetype_percentages
            {| Builder := 230; Operator := 170; Bridge := 0; Total := 400 |}
          = Ok r ->
          pcts r = [("Builder", half_even_percentage 230 400);
                    ("Operator", half_even_percentage 170 400);
                    ("Bridge", half_even_percentage 0 400)]).
Proof.
  split; [vm_compute; reflexivity|].
  intros H.
  assert (E : get_archetype_percentages
                {| Builder := 230; Operator := 170; Bridge := 0; Total := 400 |}
              = Ok {| pcts := [("Builder", 57); ("Operator", 42); ("Bridge", 0)];
                      sorted_pcts :=
                        [("Builder", 57); ("Operator", 42); ("Bridge", 0)];
                      is_hybrid := true |})
    by (vm_compute; reflexivity).
  specialize (H _ E). vm_compute in H. discriminate H.
Qed.
